(** * Market simulation with Markov chains and personalities

    A shallow embedding of
    [Market_Behaviours_Markov_Chains_Personalities_project.py].

    Conventions of the embedding.
    - A Python [dict] is an association list in insertion order, since the
      program iterates over its dictionaries ([items()], [keys()],
      [values()]).
    - Exceptions are values of [exn]; a computation that may raise returns
      [res].  Calls to the [random] module read successive draws from a
      tape threaded through the monad [M].
    - [input()] is a list of the integers typed by the user.
    - The simulation and the reports are modelled with Python floats
      idealised as exact rationals ([Q]); equality of numbers is [Qeq]
      ([==]).
    - [adjust_for_participation] is modelled twice: with exact rationals,
      and in module [Float64] with the binary64 numbers and the rounded
      operations of the program.  What the function returns bit for bit is
      stated on the second model. *)

From Stdlib Require Import QArith Qabs Qround Qpower ZArith List Lia Lqa Bool String.
From Corelib Require PrimFloat SpecFloat FloatOps FloatAxioms.
Import ListNotations.
Open Scope Q_scope.

(** ** Numbers *)

Definition Qltb (x y : Q) : bool := negb (Qle_bool y x).

(** [max(0, x)]: Python returns the first argument unless a later one is
    strictly greater. *)
Definition py_max (a b : Q) : Q := if Qltb a b then b else a.

(** [sum(xs)]: left to right from [0]. *)
Definition py_sum (xs : list Q) : Q := fold_left Qplus xs 0.

(** ** Exceptions *)

Inductive exn : Set :=
| KeyError
| ZeroDivisionError
| ValueError
| IndexError
| StatisticsError.

Inductive res (A : Type) : Type :=
| Val (a : A)
| Err (e : exn).
Arguments Val {A} a.
Arguments Err {A} e.

Definition res_bind {A B : Type} (m : res A) (f : A -> res B) : res B :=
  match m with
  | Val a => f a
  | Err e => Err e
  end.

Declare Scope res_scope.
Delimit Scope res_scope with res.
Notation "x <-- m ;; k" := (res_bind m (fun x => k))
  (at level 61, m at next level, right associativity) : res_scope.

Fixpoint res_map {A B : Type} (f : A -> res B) (xs : list A) : res (list B) :=
  match xs with
  | [] => Val []
  | x :: xs' =>
      (y <-- f x ;;
       ys <-- res_map f xs' ;;
       Val (y :: ys))%res
  end.

(** [x / y] on floats. *)
Definition py_div (x y : Q) : res Q :=
  if Qeq_bool y 0 then Err ZeroDivisionError else Val (x / y).

(** ** Dictionaries *)

Section Dict.
Context {K V : Type} (eqb : K -> K -> bool).

Definition dict : Type := list (K * V).

Definition keys (d : dict) : list K := map fst d.
Definition values (d : dict) : list V := map snd d.

(** [d.get(k)] *)
Fixpoint dict_find (k : K) (d : dict) : option V :=
  match d with
  | [] => None
  | (k', v) :: d' => if eqb k k' then Some v else dict_find k d'
  end.

(** [d.get(k, default)] *)
Definition dict_get (k : K) (default : V) (d : dict) : V :=
  match dict_find k d with
  | Some v => v
  | None => default
  end.

(** [d[k]] *)
Definition getitem (d : dict) (k : K) : res V :=
  match dict_find k d with
  | Some v => Val v
  | None => Err KeyError
  end.

(** [d[k] = v]: an existing key keeps its position. *)
Fixpoint setitem (d : dict) (k : K) (v : V) : dict :=
  match d with
  | [] => [(k, v)]
  | (k', v') :: d' =>
      if eqb k k' then (k', v) :: d' else (k', v') :: setitem d' k v
  end.
End Dict.

Arguments dict K V : clear implicits.

(** ** Market states and personalities *)

Inductive MarketState : Set := up | down | flat | crash | boom.

Inductive Personality : Set := risk_taker | cautious | greedy | average.

Definition state_eqb (a b : MarketState) : bool :=
  match a, b with
  | up, up | down, down | flat, flat | crash, crash | boom, boom => true
  | _, _ => false
  end.

Definition personality_eqb (a b : Personality) : bool :=
  match a, b with
  | risk_taker, risk_taker | cautious, cautious
  | greedy, greedy | average, average => true
  | _, _ => false
  end.

Record Profile : Type := { stay_in_prob : dict MarketState Q }.

Definition PERSONALITIES : dict Personality Profile :=
  [ (risk_taker, {| stay_in_prob := [(up, 0.9); (down, 0.75); (flat, 0.8)] |});
    (cautious,   {| stay_in_prob := [(up, 0.95); (down, 0.4); (flat, 0.6)] |});
    (greedy,     {| stay_in_prob := [(up, 0.99); (down, 0.65); (flat, 0.7)] |});
    (average,    {| stay_in_prob := [(up, 0.85); (down, 0.5); (flat, 0.65)] |}) ].

Definition Row : Type := dict MarketState Q.
Definition Matrix : Type := dict MarketState Row.

Definition BASE_MARKOV_TRANSITIONS : Matrix :=
  [ (up,    [(up, 0.4);  (down, 0.3);  (flat, 0.25); (crash, 0.025); (boom, 0.025)]);
    (down,  [(up, 0.3);  (down, 0.4);  (flat, 0.25); (crash, 0.05);  (boom, 0.0)]);
    (flat,  [(up, 0.35); (down, 0.3);  (flat, 0.3);  (crash, 0.025); (boom, 0.025)]);
    (crash, [(up, 0.4);  (down, 0.3);  (flat, 0.25); (crash, 0.025); (boom, 0.025)]);
    (boom,  [(up, 0.3);  (down, 0.25); (flat, 0.4);  (crash, 0.025); (boom, 0.025)]) ].

Definition MARKET_STATES : dict MarketState Q :=
  [ (up, 1.1); (down, 0.9); (flat, 1.0); (crash, 0.6); (boom, 1.3) ].

(** ** The random source *)

Record rng : Type := { tape : nat -> Q; cursor : nat }.

Definition M (A : Type) : Type := rng -> res (A * rng).

Definition ret {A : Type} (a : A) : M A := fun g => Val (a, g).

Definition bind {A B : Type} (m : M A) (f : A -> M B) : M B :=
  fun g =>
    match m g with
    | Val (a, g') => f a g'
    | Err e => Err e
    end.

Definition lift {A : Type} (r : res A) : M A :=
  fun g =>
    match r with
    | Val a => Val (a, g)
    | Err e => Err e
    end.

(** The generator after one call of [random.random()]. *)
Definition advance (g : rng) : rng := {| tape := tape g; cursor := S (cursor g) |}.

(** [random.random()]: the next draw of the tape. *)
Definition random : M Q := fun g => Val (tape g (cursor g), advance g).

Declare Scope rand_scope.
Delimit Scope rand_scope with rand.
Notation "x <- m ;; k" := (bind m (fun x => k))
  (at level 61, m at next level, right associativity) : rand_scope.

(** [for x in xs: f(x)], collecting the updated objects. *)
Fixpoint for_each {A B : Type} (f : A -> M B) (xs : list A) : M (list B) :=
  match xs with
  | [] => ret []
  | x :: xs' =>
      (y <- f x ;;
       ys <- for_each f xs' ;;
       ret (y :: ys))%rand
  end.

(** [itertools.accumulate(weights)] *)
Fixpoint accumulate_from (acc : Q) (ws : list Q) : list Q :=
  match ws with
  | [] => []
  | w :: ws' => (acc + w) :: accumulate_from (acc + w) ws'
  end.

Definition accumulate (ws : list Q) : list Q :=
  match ws with
  | [] => []
  | w :: ws' => w :: accumulate_from w ws'
  end.

(** [bisect.bisect(a, x, 0, hi)] on a non-decreasing [a]: the number of
    entries among the first [hi] that are [<= x]. *)
Fixpoint bisect (a : list Q) (x : Q) (hi : nat) : nat :=
  match hi, a with
  | S hi', y :: a' => if Qltb x y then O else S (bisect a' x hi')
  | _, _ => O
  end.

(** [random.choices(population, weights, k=1)[0]] *)
Definition choices {A : Type} (population : list A) (weights : list Q) : M A :=
  let cum_weights := accumulate weights in
  let n := List.length population in
  if negb (Nat.eqb (List.length cum_weights) n) then lift (Err ValueError)
  else
    match rev cum_weights with
    | [] => lift (Err IndexError)
    | total :: _ =>
        if Qle_bool total 0 then lift (Err ValueError)
        else
          (u <- random ;;
           match nth_error population (bisect cum_weights (u * total) (n - 1)) with
           | Some s => ret s
           | None => lift (Err IndexError)
           end)%rand
    end.

(** ** Person *)

Record Person : Type := {
  personality : Personality;
  value : Q;
  active : bool
}.

(** [Person.__init__] *)
Definition new_Person (p : Personality) : Person :=
  {| personality := p; value := 1000; active := true |}.

Definition set_active (p : Person) (b : bool) : Person :=
  {| personality := personality p; value := value p; active := b |}.

Definition set_value (p : Person) (v : Q) : Person :=
  {| personality := personality p; value := v; active := active p |}.

(** The first statement of [decide]:
    [PERSONALITIES[self.personality]["stay_in_prob"].get(bucket, 0.6)]. *)
Definition stay_prob_of (p : Personality) (market_state : MarketState) : res Q :=
  (profile <-- getitem personality_eqb PERSONALITIES p ;;
   Val (dict_get state_eqb
          (if state_eqb market_state crash then down else market_state)
          0.6 (stay_in_prob profile)))%res.

(** Lines 49-53 of [decide]: the chance an inactive person rejoins. *)
Definition base_chance (market_index : Q) : Q :=
  let base_chance := 0.25 in
  if Qltb market_index 0.8 then base_chance + 0.25
  else if Qltb market_index 1.0 then base_chance + 0.1
  else base_chance.

(** [Person.decide] *)
Definition decide (self : Person) (market_state : MarketState)
    (market_index : Q) : M Person :=
  (stay_prob <- lift (stay_prob_of (personality self) market_state) ;;
   if negb (active self) then
     let base_chance := base_chance market_index in
     u <- random ;;
     if Qltb u base_chance then ret (set_active self true) else ret self
   else if active self then
     u <- random ;;
     if Qltb stay_prob u then ret (set_active self false) else ret self
   else ret self)%rand.

(** [Person.update_value] *)
Definition update_value (self : Person) (market_state : MarketState) : res Person :=
  if active self then
    (m <-- getitem state_eqb MARKET_STATES market_state ;;
     Val (set_value self (value self * m)))%res
  else Val self.

(** ** The market model *)

(** The body of the loop of [adjust_for_participation] for one source
    state. *)
Definition adjust_row (probs : Row) (active_ratio : Q) : res Row :=
  (adjusted <--
     (if Qltb active_ratio 0.5 then
        d <-- getitem state_eqb probs down ;;
        let adjusted := setitem state_eqb probs down (d + 0.05) in
        u <-- getitem state_eqb adjusted up ;;
        let adjusted := setitem state_eqb adjusted up (py_max 0 (u - 0.03)) in
        b <-- getitem state_eqb adjusted boom ;;
        Val (setitem state_eqb adjusted boom (py_max 0 (b - 0.01)))
      else Val probs) ;;
   let total := py_sum (values adjusted) in
   res_map (fun kv => q <-- py_div (snd kv) total ;; Val (fst kv, q)) adjusted)%res.

Definition adjust_for_participation (transitions : Matrix) (active_ratio : Q)
    : res Matrix :=
  res_map (fun sp =>
             (r <-- adjust_row (snd sp) active_ratio ;; Val (fst sp, r))%res)
          transitions.

(** [len(xs)] as a number. *)
Definition len {A : Type} (xs : list A) : Q := inject_Z (Z.of_nat (List.length xs)).

(** The two calls made on each person in turn. *)
Definition decide_and_update (next_state : MarketState) (market_index : Q)
    (person : Person) : M Person :=
  (p <- decide person next_state market_index ;;
   lift (update_value p next_state))%rand.

(** [simulate_year]: the updated people and the next state. *)
Definition simulate_year (people : list Person) (current_state : MarketState)
    (market_index : Q) : M (list Person * MarketState) :=
  (let active_people := filter active people in
   active_ratio <- lift (py_div (len active_people) (len people)) ;;
   adjusted_transitions <-
     lift (adjust_for_participation BASE_MARKOV_TRANSITIONS active_ratio) ;;
   probs <- lift (getitem state_eqb adjusted_transitions current_state) ;;
   next_state <- choices (keys probs) (values probs) ;;
   people' <- for_each (decide_and_update next_state market_index) people ;;
   ret (people', next_state))%rand.

(** [generate_people], given the personalities [random.choice] picked. *)
Definition generate_people (picked : list Personality) : list Person :=
  map new_Person picked.

(** ** The main loop *)

Record Sim : Type := {
  people : list Person;
  year : Z;
  market_history : list MarketState;
  market_value_history : list Q;
  current_state : MarketState;
  market_index : Q
}.

Definition initial (people : list Person) : Sim :=
  {| people := people; year := 0; market_history := [];
     market_value_history := []; current_state := flat; market_index := 1.0 |}.

(** One iteration of [for _ in range(interval)]. *)
Definition one_year (s : Sim) : M Sim :=
  (r <- simulate_year (people s) (current_state s) (market_index s) ;;
   let people' := fst r in
   let current_state' := snd r in
   m <- lift (getitem state_eqb MARKET_STATES current_state') ;;
   ret {| people := people';
          year := year s + 1;
          market_history := market_history s ++ [current_state'];
          market_value_history :=
            market_value_history s
              ++ [py_sum (map value (filter active people'))];
          current_state := current_state';
          market_index := market_index s * m |})%rand.

Fixpoint run_years (n : nat) (s : Sim) : M Sim :=
  match n with
  | O => ret s
  | S n' => (s' <- one_year s ;; run_years n' s')%rand
  end.

(** Lines 151-152: the interval actually simulated. *)
Definition clamp (year interval : Z) : Z :=
  if (year + interval >? 20)%Z then (20 - year)%Z else interval.

(** How the [while] loop stands once the typed inputs are used up. *)
Inductive Outcome : Type :=
| Finished (s : Sim)
| AwaitingInput (s : Sim).

Definition final (o : Outcome) : Sim :=
  match o with
  | Finished s => s
  | AwaitingInput s => s
  end.

(** [while year < 20], one typed interval per iteration; [range] of a
    non-positive number is empty.  The interval report printed at the end
    of each iteration changes no variable of the loop and is left out. *)
Fixpoint main_loop (inputs : list Z) (s : Sim) : M Outcome :=
  if (year s <? 20)%Z then
    match inputs with
    | [] => ret (AwaitingInput s)
    | interval :: inputs' =>
        (let interval := clamp (year s) interval in
         s' <- run_years (Z.to_nat interval) s ;;
         main_loop inputs' s')%rand
    end
  else ret (Finished s).

(** ** Reports *)

(** Rounding to the nearest integer, ties to the even one. *)
Definition round_half_even (q : Q) : Z :=
  let f := Qfloor q in
  let r := q - inject_Z f in
  if Qltb r (1 # 2) then f
  else if Qltb (1 # 2) r then (f + 1)%Z
  else if Z.even f then f else (f + 1)%Z.

(** [round(x, 2)] *)
Definition round2 (x : Q) : Q := round_half_even (x * 100) # 100.

(** [sorted(xs)] *)
Fixpoint insert_sorted (x : Q) (xs : list Q) : list Q :=
  match xs with
  | [] => [x]
  | y :: ys => if Qltb x y then x :: y :: ys else y :: insert_sorted x ys
  end.

Definition sorted (xs : list Q) : list Q :=
  fold_left (fun acc x => insert_sorted x acc) xs [].

(** [statistics.mean] *)
Definition statistics_mean (data : list Q) : res Q :=
  match data with
  | [] => Err StatisticsError
  | _ => Val (py_sum data / len data)
  end.

(** [statistics.median] *)
Definition statistics_median (data : list Q) : res Q :=
  let data := sorted data in
  let n := List.length data in
  if Nat.eqb n 0 then Err StatisticsError
  else if Nat.eqb (n mod 2) 1 then
    match nth_error data (n / 2) with
    | Some x => Val x
    | None => Err IndexError
    end
  else
    let i := (n / 2)%nat in
    match nth_error data (i - 1), nth_error data i with
    | Some a, Some b => Val ((a + b) / 2)
    | _, _ => Err IndexError
    end.

(** [min(xs)] and [max(xs)]: the first extremal element. *)
Definition py_min_list (xs : list Q) : res Q :=
  match xs with
  | [] => Err ValueError
  | x :: xs' => Val (fold_left (fun m y => if Qltb y m then y else m) xs' x)
  end.

Definition py_max_list (xs : list Q) : res Q :=
  match xs with
  | [] => Err ValueError
  | x :: xs' => Val (fold_left (fun m y => if Qltb m y then y else m) xs' x)
  end.

(** [collections.Counter(data)]: counts in order of first occurrence. *)
Definition Counter (data : list Q) : dict Q nat :=
  fold_left
    (fun c elem => setitem Qeq_bool c elem (dict_get Qeq_bool elem O c + 1)%nat)
    data [].

(** [Counter.most_common(1)]: [max] over the items by count, the first of
    the maximal ones. *)
Definition most_common_1 (c : dict Q nat) : list (Q * nat) :=
  match c with
  | [] => []
  | kv :: c' =>
      [fold_left (fun best kv' => if Nat.ltb (snd best) (snd kv') then kv' else best)
                 c' kv]
  end.

(** [statistics.mode], Python 3.8 and later: the first mode encountered;
    [StatisticsError] for empty data only. *)
Definition statistics_mode (data : list Q) : res Q :=
  match most_common_1 (Counter data) with
  | top :: _ => Val (fst top)
  | [] => Err StatisticsError
  end.

(** The value stored under ["mode"], or printed on the mode line. *)
Inductive ModeEntry : Type :=
| ModeValue (m : Q)
| NoUniqueMode.

(** The [try]/[except statistics.StatisticsError] around the mode. *)
Definition mode_or_sentinel (values : list Q) : res ModeEntry :=
  match statistics_mode values with
  | Val m => Val (ModeValue (round2 m))
  | Err StatisticsError => Val NoUniqueMode
  | Err e => Err e
  end.

Record Report : Type := {
  r_mean : Q;
  r_median : Q;
  r_min : Q;
  r_max : Q;
  r_mode : ModeEntry
}.

Inductive ReportResult : Type :=
| NoData
| ReportDict (report : Report).

(** [generate_report] *)
Definition generate_report (people : list Person) : res ReportResult :=
  let values := map (fun p => round2 (value p)) people in
  match values with
  | [] => Val NoData
  | _ =>
      (mean <-- statistics_mean values ;;
       median <-- statistics_median values ;;
       mn <-- py_min_list values ;;
       mx <-- py_max_list values ;;
       mode <-- mode_or_sentinel values ;;
       Val (ReportDict {| r_mean := round2 mean;
                          r_median := round2 median;
                          r_min := round2 mn;
                          r_max := round2 mx;
                          r_mode := mode |}))%res
  end.

(** What [stats_report] prints, line by line. *)
Inductive Line : Type :=
| Header (name : string) (count : nat)
| MeanLine (q : Q)
| MedianLine (q : Q)
| ModeLine (m : ModeEntry)
| MinLine (q : Q)
| MaxLine (q : Q)
| NoDataLine.

(** [stats_report] *)
Definition stats_report (group : list Person) (name : string) : res (list Line) :=
  let values := map (fun p => round2 (value p)) group in
  let header := Header name (List.length values) in
  match values with
  | [] => Val [header; NoDataLine]
  | _ =>
      (mean <-- statistics_mean values ;;
       median <-- statistics_median values ;;
       mode <-- mode_or_sentinel values ;;
       mn <-- py_min_list values ;;
       mx <-- py_max_list values ;;
       Val [header; MeanLine (round2 mean); MedianLine (round2 median);
            ModeLine mode; MinLine mn; MaxLine mx])%res
  end.

(** A person holding a given value, for the examples. *)
Definition person_with (v : Q) : Person :=
  {| personality := average; value := v; active := true |}.

(** A person followed through a sequence of periods, each with its market
    state and the index passed to [decide]. *)
Fixpoint live (periods : list (MarketState * Q)) (self : Person) : M Person :=
  match periods with
  | [] => ret self
  | (market_state, market_index) :: periods' =>
      (p <- decide_and_update market_state market_index self ;;
       live periods' p)%rand
  end.

(** The product of the multipliers of the states recorded so far. *)
Definition multiplier_product (history : list MarketState) : Q :=
  fold_left (fun acc st => acc * dict_get state_eqb st 0 MARKET_STATES) history 1.0.

(** What the loop maintains: the year counts the recorded periods and
    stays within the twenty-year horizon. *)
Definition within_horizon (s : Sim) : Prop :=
  (0 <= year s <= 20)%Z /\
  Z.of_nat (List.length (market_history s)) = year s /\
  Z.of_nat (List.length (market_value_history s)) = year s.

(** ** The period as the specification words it

    Steps 1 to 5 of the specification's period: the running index is
    multiplied by the multiplier of the next state before the agents
    decide. *)
Definition spec_one_year (s : Sim) : M Sim :=
  (let active_people := filter active (people s) in
   participationRatio <- lift (py_div (len active_people) (len (people s))) ;;
   adjusted <-
     lift (adjust_for_participation BASE_MARKOV_TRANSITIONS participationRatio) ;;
   probs <- lift (getitem state_eqb adjusted (current_state s)) ;;
   nextState <- choices (keys probs) (values probs) ;;
   m <- lift (getitem state_eqb MARKET_STATES nextState) ;;
   let marketIndex := market_index s * m in
   people' <- for_each (decide_and_update nextState marketIndex) (people s) ;;
   ret {| people := people';
          year := year s + 1;
          market_history := market_history s ++ [nextState];
          market_value_history :=
            market_value_history s
              ++ [py_sum (map value (filter active people'))];
          current_state := nextState;
          market_index := marketIndex |})%rand.

(** The draws of a two-year run with one person: the market goes up and
    the person leaves, then the market goes down and the person draws 0.3. *)
Definition two_year_tape : rng :=
  {| tape := fun n => nth n [0; 0.9; 0.5; 0.3] 0; cursor := 0 |}.

(** ** The constants in binary64 *)

Module Binary64.
Import PrimFloat.
#[local] Set Warnings "-inexact-float".

(** The rows of [BASE_MARKOV_TRANSITIONS], in the order of the table. *)
Definition BASE_ROWS : list (list float) :=
  [ [0.4;  0.3;  0.25; 0.025; 0.025];
    [0.3;  0.4;  0.25; 0.05;  0.0];
    [0.35; 0.3;  0.3;  0.025; 0.025];
    [0.4;  0.3;  0.25; 0.025; 0.025];
    [0.3;  0.25; 0.4;  0.025; 0.025] ]%float.

(** [sum(row.values())] *)
Definition row_total (row : list float) : float := fold_left add row 0%float.

(** [row[key] /= total] for every key. *)
Definition normalised (row : list float) : list float :=
  map (fun x => (x / row_total row)%float) row.

End Binary64.

(** ** Well-formed inputs *)

Definition states : list MarketState := [up; down; flat; crash; boom].

Definition has_key (probs : Row) (s : MarketState) : bool :=
  match dict_find state_eqb s probs with
  | Some _ => true
  | None => false
  end.

(** A row of a transition matrix: an entry for each of the five states,
    none negative, the entries summing to 1. *)
Definition is_distribution (probs : Row) : bool :=
  forallb (has_key probs) states
  && forallb (Qle_bool 0) (values probs)
  && Qeq_bool (py_sum (values probs)) 1.

Definition is_transition_matrix (transitions : Matrix) : bool :=
  forallb (fun sp => is_distribution (snd sp)) transitions.

(** What the normalising loop [for key in row: row[key] /= total] leaves
    when the division is defined. *)
Definition divide_all (total : Q) (d : Row) : Row :=
  map (fun kv => (fst kv, snd kv / total)) d.

(** Two rows with the same keys in the same order and equal numbers. *)
Definition same_row (a b : Row) : Prop :=
  Forall2 (fun x y => fst x = fst y /\ snd x == snd y) a b.

Definition same_matrix (a b : Matrix) : Prop :=
  Forall2 (fun x y => fst x = fst y /\ same_row (snd x) (snd y)) a b.

(** The direction in which low participation moves a row: more weight on
    ["down"], no more on ["up"] and ["boom"], nothing negative. *)
Definition shifted_down (adjusted base : Row) : Prop :=
  exists d u b d' u' b',
    dict_find state_eqb down base = Some d /\
    dict_find state_eqb up base = Some u /\
    dict_find state_eqb boom base = Some b /\
    dict_find state_eqb down adjusted = Some d' /\
    dict_find state_eqb up adjusted = Some u' /\
    dict_find state_eqb boom adjusted = Some b' /\
    d <= d' /\ u' <= u /\ b' <= b /\
    Forall (Qle 0) (values adjusted).

(** How often a number occurs in a list. *)
Definition occurrences (x : Q) (data : list Q) : nat :=
  List.length (filter (Qeq_bool x) data).

(** The numbers of a list in the order of their first occurrence. *)
Definition add_first (acc : list Q) (e : Q) : list Q :=
  if existsb (Qeq_bool e) acc then acc else acc ++ [e].

Definition firsts (data : list Q) : list Q := fold_left add_first data [].


(** ** [adjust_for_participation] in binary64 *)

Module Float64.
Import PrimFloat.
#[local] Set Warnings "-inexact-float".

Definition Row : Type := dict MarketState float.
Definition Matrix : Type := dict MarketState Row.

Definition BASE_MARKOV_TRANSITIONS : Matrix :=
  [ (up,    [(up, 0.4);  (down, 0.3);  (flat, 0.25); (crash, 0.025); (boom, 0.025)]);
    (down,  [(up, 0.3);  (down, 0.4);  (flat, 0.25); (crash, 0.05);  (boom, 0.0)]);
    (flat,  [(up, 0.35); (down, 0.3);  (flat, 0.3);  (crash, 0.025); (boom, 0.025)]);
    (crash, [(up, 0.4);  (down, 0.3);  (flat, 0.25); (crash, 0.025); (boom, 0.025)]);
    (boom,  [(up, 0.3);  (down, 0.25); (flat, 0.4);  (crash, 0.025); (boom, 0.025)]) ]%float.

(** [max(0, x)]: the first argument unless the second is strictly greater. *)
Definition py_max (a b : float) : float := if ltb a b then b else a.

(** [sum(xs)]: the numbers added one after the other, from [0], each
    addition rounded (CPython up to 3.11; later versions add a correction
    term for the rounding errors at the end). *)
Definition py_sum (xs : list float) : float := fold_left add xs 0%float.

(** [x / y]: Python raises where IEEE 754 would return an infinity or a
    NaN for a zero divisor, of either sign. *)
Definition py_div (x y : float) : res float :=
  if eqb y 0 then Err ZeroDivisionError else Val (x / y)%float.

(** The body of the loop of [adjust_for_participation] for one source
    state. *)
Definition adjust_row (probs : Row) (active_ratio : float) : res Row :=
  (adjusted <--
     (if ltb active_ratio 0.5 then
        d <-- getitem state_eqb probs down ;;
        let adjusted := setitem state_eqb probs down (d + 0.05)%float in
        u <-- getitem state_eqb adjusted up ;;
        let adjusted := setitem state_eqb adjusted up (py_max 0 (u - 0.03))%float in
        b <-- getitem state_eqb adjusted boom ;;
        Val (setitem state_eqb adjusted boom (py_max 0 (b - 0.01))%float)
      else Val probs) ;;
   let total := py_sum (values adjusted) in
   res_map (fun kv => q <-- py_div (snd kv) total ;; Val (fst kv, q)) adjusted)%res.

Definition adjust_for_participation (transitions : Matrix) (active_ratio : float)
    : res Matrix :=
  res_map (fun sp =>
             (r <-- adjust_row (snd sp) active_ratio ;; Val (fst sp, r))%res)
          transitions.

(** What the normalising loop leaves when the division is defined. *)
Definition divide_all (total : float) (d : Row) : Row :=
  map (fun kv => (fst kv, (snd kv / total)%float)) d.

Definition has_key (probs : Row) (s : MarketState) : bool :=
  match dict_find state_eqb s probs with
  | Some _ => true
  | None => false
  end.

(** A row of a transition matrix as the program can hold one: an entry
    for each of the five states, none negative, the total within 1e-9 of
    1. *)
Definition is_distribution (probs : Row) : bool :=
  forallb (has_key probs) states
  && forallb (leb 0) (values probs)
  && leb (abs (py_sum (values probs) - 1)) 1e-9.

Definition is_transition_matrix (transitions : Matrix) : bool :=
  forallb (fun sp => is_distribution (snd sp)) transitions.

(** The rows whose total is the number 1.0 itself. *)
Definition totals_are_one (transitions : Matrix) : bool :=
  forallb (fun sp => eqb (py_sum (values (snd sp))) 1) transitions.

(** The same keys in the same order, with numbers that compare equal. *)
Fixpoint row_eqb (a b : Row) : bool :=
  match a, b with
  | [], [] => true
  | (k, x) :: a', (k', y) :: b' => state_eqb k k' && eqb x y && row_eqb a' b'
  | _, _ => false
  end.

Fixpoint matrix_eqb (a b : Matrix) : bool :=
  match a, b with
  | [], [] => true
  | (k, x) :: a', (k', y) :: b' => state_eqb k k' && row_eqb x y && matrix_eqb a' b'
  | _, _ => false
  end.

(** The direction in which low participation moves a row: no less weight
    on ["down"], no more on ["up"] and ["boom"], nothing negative. *)
Definition shifted_down (adjusted base : Row) : bool :=
  match dict_find state_eqb down base, dict_find state_eqb up base,
        dict_find state_eqb boom base,
        dict_find state_eqb down adjusted, dict_find state_eqb up adjusted,
        dict_find state_eqb boom adjusted with
  | Some d, Some u, Some b, Some d', Some u', Some b' =>
      leb d d' && leb u' u && leb b' b && forallb (leb 0) (values adjusted)
  | _, _, _, _, _, _ => false
  end.

(** One-decimal probabilities that add up to 1; and a row that is 2^-52
    above 1. *)
Definition TENTHS : Matrix :=
  [ (up,    [(up, 0.7); (down, 0.1); (flat, 0.1); (crash, 0.1); (boom, 0.0)]);
    (down,  [(up, 0.5); (down, 0.5); (flat, 0x1p-52); (crash, 0.0); (boom, 0.0)]) ]%float.


(** The multiples of 0.025 as the program writes them: [k / 40] is the
    binary64 number nearest to k/40, which is what the literal denotes. *)
Fixpoint of_nat (k : nat) : float :=
  match k with
  | O => 0%float
  | S k' => (of_nat k' + 1)%float
  end.





End Float64.

(** * Properties *)

(** ** Comparisons and sums *)

Lemma Qltb_lt (x y : Q) : Qltb x y = true <-> x < y.
Proof.
  unfold Qltb. rewrite negb_true_iff, <- not_true_iff_false, Qle_bool_iff.
  split; [apply Qnot_le_lt | apply Qlt_not_le].
Qed.

Lemma Qltb_ge (x y : Q) : Qltb x y = false <-> y <= x.
Proof.
  unfold Qltb. rewrite negb_false_iff. apply Qle_bool_iff.
Qed.

Ltac case_Qltb x y :=
  let H := fresh "Hcmp" in
  destruct (Qltb x y) eqn:H;
  [apply Qltb_lt in H | apply Qltb_ge in H].

Lemma fold_left_Qplus (xs : list Q) (a : Q) :
  fold_left Qplus xs a == a + fold_left Qplus xs 0.
Proof.
  revert a. induction xs as [|x xs IH]; intros a; simpl.
  - lra.
  - rewrite (IH (a + x)), (IH (0 + x)). lra.
Qed.

Lemma py_sum_cons (x : Q) (xs : list Q) : py_sum (x :: xs) == x + py_sum xs.
Proof.
  unfold py_sum. simpl. rewrite fold_left_Qplus. lra.
Qed.

Lemma py_sum_nil : py_sum [] == 0.
Proof. reflexivity. Qed.

(** ** The stay-in probability *)

Lemma state_eqb_eq (a b : MarketState) : state_eqb a b = true <-> a = b.
Proof. destruct a, b; simpl; split; intro H; congruence. Qed.

Lemma state_eqb_refl (a : MarketState) : state_eqb a a = true.
Proof. now apply state_eqb_eq. Qed.

Lemma stay_prob_of_defined (p : Personality) (s : MarketState) :
  exists q, stay_prob_of p s = Val q.
Proof. destruct p, s; eexists; reflexivity. Qed.

(** C7. For every person (any of the four personalities) and each of the
    five market states the first statement of [decide] raises nothing: the
    profile is found, and the stay-in probability is the profile's entry
    for ["down"] on a crash, the entry for the state itself when the table
    has one, and 0.6 when it has none, which is the case of boom.
    [decide] itself then returns, and an active person leaves exactly when
    the draw exceeds that probability. *)
Theorem stay_prob_lookup_total
    (self : Person) (s : MarketState) (market_index : Q) (g : rng) :
  exists profile q,
    getitem personality_eqb PERSONALITIES (personality self) = Val profile /\
    stay_prob_of (personality self) s = Val q /\
    match dict_find state_eqb (match s with crash => down | _ => s end)
                    (stay_in_prob profile) with
    | Some entry => q = entry
    | None => q = 0.6
    end /\
    match s with
    | crash => dict_find state_eqb down (stay_in_prob profile) = Some q
    | boom => dict_find state_eqb boom (stay_in_prob profile) = None /\ q = 0.6
    | _ => dict_find state_eqb s (stay_in_prob profile) = Some q
    end /\
    (exists self' g', decide self s market_index g = Val (self', g')) /\
    decide (set_active self true) s market_index g =
      Val (if Qltb q (tape g (cursor g))
           then set_active self false
           else set_active self true,
           advance g).
Proof.
  destruct self as [p v a].
  destruct p; (eexists; eexists; split; [reflexivity|]);
    (split; [destruct s; reflexivity|]);
    (split; [destruct s; reflexivity|]);
    (split; [destruct s; simpl; auto|]);
    unfold decide, bind, lift, random, ret, advance; destruct s; simpl;
    (split; [destruct a; simpl;
             match goal with
             | |- context [if ?c then _ else _] => destruct c
             end; eauto
            | match goal with
              | |- context [if ?c then _ else _] => destruct c
              end; reflexivity]).
Qed.

(** The whole table the lookup resolves to. *)
Example stay_prob_table :
  map (fun p => map (stay_prob_of p) [up; down; flat; crash; boom])
      [risk_taker; cautious; greedy; average]
  = [ [Val 0.9;  Val 0.75; Val 0.8;  Val 0.75; Val 0.6];
      [Val 0.95; Val 0.4;  Val 0.6;  Val 0.4;  Val 0.6];
      [Val 0.99; Val 0.65; Val 0.7;  Val 0.65; Val 0.6];
      [Val 0.85; Val 0.5;  Val 0.65; Val 0.5;  Val 0.6] ].
Proof. reflexivity. Qed.

(** ** Re-entry *)

Lemma base_chance_cases (market_index : Q) :
  (market_index < 0.8 -> base_chance market_index == 0.5) /\
  (0.8 <= market_index -> market_index < 1.0 -> base_chance market_index == 0.35) /\
  (1.0 <= market_index -> base_chance market_index == 0.25).
Proof.
  unfold base_chance.
  case_Qltb market_index 0.8; [|case_Qltb market_index 1.0];
    repeat split; intros; try lra; reflexivity.
Qed.

Lemma decide_inactive (self : Person) (s : MarketState) (market_index : Q) (g : rng) :
  active self = false ->
  decide self s market_index g =
    Val (if Qltb (tape g (cursor g)) (base_chance market_index)
         then set_active self true else self,
         advance g).
Proof.
  intros Ha.
  destruct (stay_prob_of_defined (personality self) s) as [q Hq].
  unfold decide, bind. rewrite Hq. simpl. rewrite Ha. simpl.
  unfold random, ret, advance.
  destruct (Qltb _ _); reflexivity.
Qed.

(** C6. For an inactive person the single draw is compared against a
    chance that is 0.5 below an index of 0.8, 0.35 from 0.8 up to (not
    including) 1.0, and 0.25 from 1.0 on; the person is active after
    [decide] exactly when the draw is below that chance. *)
Theorem reentry_chance_by_index
    (self : Person) (s : MarketState) (market_index : Q) (g : rng) :
  active self = false ->
  exists chance self',
    (market_index < 0.8 -> chance == 0.5) /\
    (0.8 <= market_index -> market_index < 1.0 -> chance == 0.35) /\
    (1.0 <= market_index -> chance == 0.25) /\
    decide self s market_index g = Val (self', advance g) /\
    (active self' = true <-> tape g (cursor g) < chance) /\
    personality self' = personality self /\ value self' = value self.
Proof.
  intros Ha.
  exists (base_chance market_index).
  rewrite (decide_inactive self s market_index g Ha).
  destruct (base_chance_cases market_index) as (H1 & H2 & H3).
  case_Qltb (tape g (cursor g)) (base_chance market_index).
  - exists (set_active self true). repeat split; auto.
  - exists self. repeat split; auto.
    + rewrite Ha. discriminate.
    + intros Hlt. lra.
Qed.

Lemma reentry_chance_by_index_witness :
  let self := {| personality := average; value := 1000; active := false |} in
  let g := {| tape := fun _ => 0.3; cursor := 0 |} in
  active self = false /\
  exists chance self',
    (0.9 < 0.8 -> chance == 0.5) /\
    (0.8 <= 0.9 -> 0.9 < 1.0 -> chance == 0.35) /\
    (1.0 <= 0.9 -> chance == 0.25) /\
    decide self down 0.9 g = Val (self', advance g) /\
    (active self' = true <-> tape g (cursor g) < chance) /\
    personality self' = personality self /\ value self' = value self.
Proof.
  split; [reflexivity|].
  apply (reentry_chance_by_index
           {| personality := average; value := 1000; active := false |}
           down 0.9 {| tape := fun _ => 0.3; cursor := 0 |}).
  reflexivity.
Defined.

(** ** Dictionaries of numbers *)

Lemma dict_find_In_values (k : MarketState) (d : Row) (v : Q) :
  dict_find state_eqb k d = Some v -> In v (values d).
Proof.
  induction d as [|[k' v'] d IH]; simpl; [discriminate|].
  destruct (state_eqb k k'); intros H.
  - left. congruence.
  - right. auto.
Qed.

Lemma dict_find_setitem (d : Row) (k k' : MarketState) (v : Q) :
  dict_find state_eqb k' (setitem state_eqb d k v)
  = if state_eqb k' k then Some v else dict_find state_eqb k' d.
Proof.
  induction d as [|[k0 v0] d IH]; simpl.
  - destruct (state_eqb k' k); reflexivity.
  - destruct (state_eqb k k0) eqn:E; simpl.
    + apply state_eqb_eq in E. subst k0.
      destruct (state_eqb k' k); reflexivity.
    + destruct (state_eqb k' k0) eqn:E'; [|exact IH].
      apply state_eqb_eq in E'. subst k0.
      destruct (state_eqb k' k) eqn:E''; [|reflexivity].
      apply state_eqb_eq in E''. subst k'.
      rewrite state_eqb_refl in E. discriminate.
Qed.

Lemma py_sum_setitem (d : Row) (k : MarketState) (old v : Q) :
  dict_find state_eqb k d = Some old ->
  py_sum (values (setitem state_eqb d k v)) == py_sum (values d) - old + v.
Proof.
  induction d as [|[k0 v0] d IH]; simpl; [discriminate|].
  destruct (state_eqb k k0); intros H.
  - injection H as ->. simpl. rewrite !py_sum_cons. lra.
  - simpl. rewrite !py_sum_cons. specialize (IH H). unfold values in *. lra.
Qed.

Lemma nonneg_setitem (d : Row) (k : MarketState) (v : Q) :
  Forall (Qle 0) (values d) -> 0 <= v ->
  Forall (Qle 0) (values (setitem state_eqb d k v)).
Proof.
  intros Hd Hv. induction d as [|[k0 v0] d IH]; simpl.
  - constructor; [exact Hv | constructor].
  - inversion Hd as [|? ? H0 Hrest]; subst.
    destruct (state_eqb k k0); simpl; constructor; auto.
Qed.

Lemma le_py_sum (xs : list Q) (v : Q) :
  Forall (Qle 0) xs -> In v xs -> v <= py_sum xs.
Proof.
  induction 1 as [|x xs Hx Hxs IH]; simpl; [tauto|].
  assert (0 <= py_sum xs) as Hs.
  { clear IH. induction Hxs as [|y ys Hy Hys IHs]; [now rewrite py_sum_nil|].
    rewrite py_sum_cons. lra. }
  rewrite py_sum_cons. intros [->|Hin]; [lra|].
  specialize (IH Hin). lra.
Qed.

Lemma normalise_ok (total : Q) (d : Row) :
  ~ total == 0 ->
  res_map (fun kv => (q <-- py_div (snd kv) total ;; Val (fst kv, q))%res) d
  = Val (divide_all total d).
Proof.
  intros Ht.
  assert (Qeq_bool total 0 = false) as E.
  { destruct (Qeq_bool total 0) eqn:E; [|reflexivity].
    apply Qeq_bool_iff in E. contradiction. }
  induction d as [|[k v] d IH]; simpl; [reflexivity|].
  rewrite IH. unfold py_div. rewrite E. reflexivity.
Qed.

Lemma py_sum_divide_all (total : Q) (d : Row) :
  ~ total == 0 ->
  py_sum (values (divide_all total d)) == py_sum (values d) / total.
Proof.
  intros Ht. induction d as [|[k v] d IH]; simpl.
  - rewrite py_sum_nil. field. exact Ht.
  - rewrite !py_sum_cons. unfold values, divide_all in *. rewrite IH.
    field. exact Ht.
Qed.

Lemma dict_find_divide_all (total : Q) (d : Row) (k : MarketState) :
  dict_find state_eqb k (divide_all total d)
  = option_map (fun v => v / total) (dict_find state_eqb k d).
Proof.
  induction d as [|[k0 v0] d IH]; simpl; [reflexivity|].
  destruct (state_eqb k k0); [reflexivity | exact IH].
Qed.

Lemma nonneg_divide_all (total : Q) (d : Row) :
  0 < total -> Forall (Qle 0) (values d) ->
  Forall (Qle 0) (values (divide_all total d)).
Proof.
  intros Ht Hd. induction d as [|[k v] d IH]; simpl; [constructor|].
  inversion Hd as [|? ? Hv Hrest]; subst. constructor; [|auto].
  simpl. apply Qle_shift_div_l; [exact Ht | lra].
Qed.

Lemma keys_divide_all (total : Q) (d : Row) :
  keys (divide_all total d) = keys d.
Proof.
  unfold keys, divide_all. rewrite map_map. reflexivity.
Qed.

Lemma is_distribution_spec (probs : Row) :
  is_distribution probs = true ->
  (forall s, exists v, dict_find state_eqb s probs = Some v) /\
  Forall (Qle 0) (values probs) /\
  py_sum (values probs) == 1.
Proof.
  unfold is_distribution. rewrite !andb_true_iff.
  intros [[Hk Hn] Hs]. repeat split.
  - intros s. rewrite forallb_forall in Hk.
    assert (In s states) as Hin by (destruct s; simpl; tauto).
    specialize (Hk s Hin). unfold has_key in Hk.
    destruct (dict_find state_eqb s probs) as [v|]; [eauto | discriminate].
  - apply Forall_forall. intros x Hx. rewrite forallb_forall in Hn.
    apply Qle_bool_iff. auto.
  - apply Qeq_bool_iff. exact Hs.
Qed.

Lemma keys_setitem (d : Row) (k : MarketState) (old v : Q) :
  dict_find state_eqb k d = Some old ->
  keys (setitem state_eqb d k v) = keys d.
Proof.
  induction d as [|[k0 v0] d IH]; simpl; [discriminate|].
  destruct (state_eqb k k0); intros H; simpl; [reflexivity|].
  specialize (IH H). unfold keys in *. simpl. rewrite IH. reflexivity.
Qed.

Lemma same_row_divide_by_one (total : Q) (d : Row) :
  total == 1 -> same_row (divide_all total d) d.
Proof.
  intros Ht. induction d as [|[k v] d IH]; constructor; [|exact IH].
  simpl. split; [reflexivity|]. rewrite Ht. field.
Qed.

(** ** One row of [adjust_for_participation] *)

Lemma adjust_row_high (probs : Row) (active_ratio : Q) :
  is_distribution probs = true -> 0.5 <= active_ratio ->
  exists row,
    adjust_row probs active_ratio = Val row /\
    same_row row probs /\
    py_sum (values row) == 1.
Proof.
  intros Hd Hr. apply is_distribution_spec in Hd. destruct Hd as (_ & _ & Hsum).
  assert (~ py_sum (values probs) == 0) as Hnz by (rewrite Hsum; discriminate).
  exists (divide_all (py_sum (values probs)) probs).
  unfold adjust_row.
  apply Qltb_ge in Hr. rewrite Hr. simpl.
  rewrite (normalise_ok _ _ Hnz).
  repeat split.
  - apply same_row_divide_by_one. exact Hsum.
  - rewrite (py_sum_divide_all _ _ Hnz). rewrite Hsum. reflexivity.
Qed.

Lemma adjust_row_low (probs : Row) (active_ratio : Q) :
  is_distribution probs = true -> active_ratio < 0.5 ->
  exists row d u b d' u' b',
    adjust_row probs active_ratio = Val row /\
    keys row = keys probs /\
    py_sum (values row) == 1 /\
    Forall (Qle 0) (values row) /\
    dict_find state_eqb down probs = Some d /\
    dict_find state_eqb up probs = Some u /\
    dict_find state_eqb boom probs = Some b /\
    dict_find state_eqb down row = Some d' /\
    dict_find state_eqb up row = Some u' /\
    dict_find state_eqb boom row = Some b' /\
    d <= d' /\ u' <= u /\ b' <= b.
Proof.
  intros Hd Hr. apply is_distribution_spec in Hd.
  destruct Hd as (Hkeys & Hnn & Hsum).
  destruct (Hkeys down) as [d Hfd].
  destruct (Hkeys up) as [u Hfu].
  destruct (Hkeys boom) as [b Hfb].
  assert (0 <= d /\ d <= 1) as [Hd0 Hd1].
  { split.
    - rewrite Forall_forall in Hnn. apply Hnn. eapply dict_find_In_values; eauto.
    - rewrite <- Hsum. apply le_py_sum; [exact Hnn|].
      eapply dict_find_In_values; eauto. }
  assert (0 <= u) as Hu0.
  { rewrite Forall_forall in Hnn. apply Hnn. eapply dict_find_In_values; eauto. }
  assert (0 <= b) as Hb0.
  { rewrite Forall_forall in Hnn. apply Hnn. eapply dict_find_In_values; eauto. }
  set (r1 := setitem state_eqb probs down (d + 0.05)).
  set (mu := py_max 0 (u - 0.03)).
  set (r2 := setitem state_eqb r1 up mu).
  set (mb := py_max 0 (b - 0.01)).
  set (r3 := setitem state_eqb r2 boom mb).
  assert (dict_find state_eqb up r1 = Some u) as Hfu1.
  { unfold r1. rewrite dict_find_setitem. simpl. exact Hfu. }
  assert (dict_find state_eqb boom r2 = Some b) as Hfb2.
  { unfold r2, r1. rewrite !dict_find_setitem. simpl. exact Hfb. }
  assert (0 <= mu /\ u - 0.03 <= mu /\ mu <= u) as (Hmu0 & Hmu1 & Hmu2).
  { unfold mu, py_max. case_Qltb 0 (u - 0.03); repeat split; lra. }
  assert (0 <= mb /\ b - 0.01 <= mb /\ mb <= b) as (Hmb0 & Hmb1 & Hmb2).
  { unfold mb, py_max. case_Qltb 0 (b - 0.01); repeat split; lra. }
  set (total := py_sum (values r3)).
  assert (total == 1 + 0.05 - (u - mu) - (b - mb)) as Htotal.
  { assert (py_sum (values r3) == py_sum (values r2) - b + mb) as E3
      by (apply py_sum_setitem; exact Hfb2).
    assert (py_sum (values r2) == py_sum (values r1) - u + mu) as E2
      by (apply py_sum_setitem; exact Hfu1).
    assert (py_sum (values r1) == py_sum (values probs) - d + (d + 0.05)) as E1
      by (apply py_sum_setitem; exact Hfd).
    unfold total. lra. }
  assert (0 < total) as Hpos by lra.
  assert (~ total == 0) as Hnz by lra.
  exists (divide_all total r3), d, u, b, ((d + 0.05) / total), (mu / total), (mb / total).
  split.
  { unfold adjust_row. apply Qltb_lt in Hr. rewrite Hr.
    unfold getitem. rewrite Hfd. simpl. fold r1.
    unfold getitem. rewrite Hfu1. simpl. fold mu. fold r2.
    unfold getitem. rewrite Hfb2. simpl. fold mb. fold r3. fold total.
    apply normalise_ok. exact Hnz. }
  split.
  { rewrite keys_divide_all.
    transitivity (keys r2); [exact (keys_setitem r2 boom b mb Hfb2)|].
    transitivity (keys r1); [exact (keys_setitem r1 up u mu Hfu1)|].
    exact (keys_setitem probs down d _ Hfd). }
  split.
  { rewrite (py_sum_divide_all _ _ Hnz). fold total. field. exact Hnz. }
  split.
  { apply nonneg_divide_all; [exact Hpos|].
    unfold r3, r2, r1.
    repeat apply nonneg_setitem; try assumption. lra. }
  repeat split; try assumption.
  - rewrite dict_find_divide_all. unfold r3, r2, r1.
    rewrite !dict_find_setitem. reflexivity.
  - rewrite dict_find_divide_all. unfold r3, r2.
    rewrite !dict_find_setitem. reflexivity.
  - rewrite dict_find_divide_all. unfold r3.
    rewrite !dict_find_setitem. reflexivity.
  - apply Qle_shift_div_l; [exact Hpos|]. nra.
  - apply Qle_shift_div_r; [exact Hpos|]. nra.
  - apply Qle_shift_div_r; [exact Hpos|]. nra.
Qed.

(** ** The adjusted matrix *)

Lemma res_map_Forall2 {A B : Type} (f : A -> res B) (R : B -> A -> Prop)
    (xs : list A) :
  (forall x, In x xs -> exists y, f x = Val y /\ R y x) ->
  exists ys, res_map f xs = Val ys /\ Forall2 R ys xs.
Proof.
  induction xs as [|x xs IH]; intros H.
  - exists []. split; [reflexivity | constructor].
  - destruct (H x (or_introl eq_refl)) as (y & Hy & Hr).
    destruct IH as (ys & Hys & Hall); [intros; apply H; now right|].
    exists (y :: ys). simpl. rewrite Hy. simpl. rewrite Hys. simpl.
    split; [reflexivity | constructor; assumption].
Qed.

Lemma rows_are_distributions (transitions : Matrix) (sp : MarketState * Row) :
  is_transition_matrix transitions = true -> In sp transitions ->
  is_distribution (snd sp) = true.
Proof.
  unfold is_transition_matrix. rewrite forallb_forall. auto.
Qed.

Lemma Forall2_keys {V W : Type} (R : W -> V -> Prop)
    (a : list (MarketState * W)) (b : list (MarketState * V)) :
  Forall2 (fun x y => fst x = fst y /\ R (snd x) (snd y)) a b ->
  keys a = keys b.
Proof.
  induction 1 as [|x y a b [Hk _] _ IH]; [reflexivity|].
  unfold keys in *. simpl. congruence.
Qed.

(** With exact arithmetic a matrix whose every row is a distribution
    would come back unchanged at a ratio of at least 0.5: the same source
    states in the same order, each row with the same keys and the same
    numbers.  What the program does in binary64 is stated further down. *)
Lemma adjusted_equals_base_in_exact_arithmetic
    (transitions : Matrix) (active_ratio : Q) :
  is_transition_matrix transitions = true ->
  0.5 <= active_ratio ->
  exists adjusted,
    adjust_for_participation transitions active_ratio = Val adjusted /\
    same_matrix adjusted transitions.
Proof.
  intros Ht Hr. unfold adjust_for_participation, same_matrix.
  apply res_map_Forall2. intros [s probs] Hin.
  destruct (adjust_row_high probs active_ratio) as (row & Hrow & Hsame & _);
    [exact (rows_are_distributions _ _ Ht Hin) | exact Hr |].
  exists (s, row). simpl. rewrite Hrow. simpl. auto.
Qed.

Lemma same_row_nonneg (a b : Row) :
  same_row a b -> Forall (Qle 0) (values b) -> Forall (Qle 0) (values a).
Proof.
  induction 1 as [|x y a b [_ Hv] _ IH]; intros Hb; simpl; [constructor|].
  inversion Hb as [|? ? Hy Hrest]; subst.
  constructor; [rewrite Hv; exact Hy | auto].
Qed.

Lemma adjust_row_sums_to_one (probs : Row) (active_ratio : Q) :
  is_distribution probs = true ->
  exists row,
    adjust_row probs active_ratio = Val row /\
    keys row = keys probs /\
    py_sum (values row) == 1 /\
    Forall (Qle 0) (values row).
Proof.
  intros Hd. destruct (Qlt_le_dec active_ratio 0.5) as [Hlo|Hhi].
  - destruct (adjust_row_low probs active_ratio Hd Hlo)
      as (row & d & u & b & d' & u' & b' & Hrow & Hk & Hs & Hnn & _).
    exists row. auto.
  - destruct (adjust_row_high probs active_ratio Hd Hhi) as (row & Hrow & Hsame & Hs).
    exists row. repeat split; try assumption.
    + exact (Forall2_keys (fun x y => x == y) row probs Hsame).
    + apply (same_row_nonneg _ _ Hsame).
      apply is_distribution_spec in Hd. tauto.
Qed.

(** C4. Whatever the participation ratio, when every row of the base
    matrix is a distribution (an entry per state, none negative, sum 1),
    [adjust_for_participation] returns a matrix with the same source
    states whose every row sums to 1, hence to 1 within 1e-9. *)
Theorem adjusted_rows_sum_to_one (transitions : Matrix) (active_ratio : Q) :
  is_transition_matrix transitions = true ->
  exists adjusted,
    adjust_for_participation transitions active_ratio = Val adjusted /\
    keys adjusted = keys transitions /\
    Forall (fun sp => py_sum (values (snd sp)) == 1 /\
                      Qabs (py_sum (values (snd sp)) - 1) <= 1e-9) adjusted.
Proof.
  intros Ht.
  destruct (res_map_Forall2
              (fun sp => (r <-- adjust_row (snd sp) active_ratio ;; Val (fst sp, r))%res)
              (fun y x => fst y = fst x /\ py_sum (values (snd y)) == 1)
              transitions) as (adjusted & Hadj & Hall).
  { intros [s probs] Hin.
    destruct (adjust_row_sums_to_one probs active_ratio) as (row & Hrow & _ & Hs & _);
      [exact (rows_are_distributions _ _ Ht Hin)|].
    exists (s, row). simpl. rewrite Hrow. simpl. auto. }
  exists adjusted. split; [exact Hadj|]. split.
  - exact (Forall2_keys (fun (r : Row) (_ : Row) => py_sum (values r) == 1)
             adjusted transitions Hall).
  - clear Hadj Ht.
    induction Hall as [|y x ys xs [_ Hs] _ IH]; [constructor|].
    constructor; [|exact IH].
    split; [exact Hs|]. rewrite Hs. vm_compute. discriminate.
Qed.

Lemma adjusted_rows_sum_to_one_witness :
  is_transition_matrix BASE_MARKOV_TRANSITIONS = true /\
  exists adjusted,
    adjust_for_participation BASE_MARKOV_TRANSITIONS 0.2 = Val adjusted /\
    keys adjusted = keys BASE_MARKOV_TRANSITIONS /\
    Forall (fun sp => py_sum (values (snd sp)) == 1 /\
                      Qabs (py_sum (values (snd sp)) - 1) <= 1e-9) adjusted.
Proof.
  assert (is_transition_matrix BASE_MARKOV_TRANSITIONS = true) as Ht
    by (vm_compute; reflexivity).
  split; [exact Ht|].
  exact (adjusted_rows_sum_to_one BASE_MARKOV_TRANSITIONS 0.2 Ht).
Defined.

(** With exact arithmetic, when the participation ratio is below 0.5 and
    every row of the base matrix is a distribution, every row of the
    adjusted matrix has at least the base weight on ["down"], at most the
    base weight on ["up"] and on ["boom"], and no negative entry. *)
Lemma low_participation_shifts_down_in_exact_arithmetic
    (transitions : Matrix) (active_ratio : Q) :
  is_transition_matrix transitions = true ->
  active_ratio < 0.5 ->
  exists adjusted,
    adjust_for_participation transitions active_ratio = Val adjusted /\
    Forall2 (fun adj base => fst adj = fst base /\ shifted_down (snd adj) (snd base))
            adjusted transitions.
Proof.
  intros Ht Hr. unfold adjust_for_participation.
  apply res_map_Forall2. intros [s probs] Hin.
  destruct (adjust_row_low probs active_ratio)
    as (row & d & u & b & d' & u' & b' & Hrow & Hk & Hs & Hnn & H);
    [exact (rows_are_distributions _ _ Ht Hin) | exact Hr |].
  exists (s, row). simpl. rewrite Hrow. simpl.
  repeat split. exists d, u, b, d', u', b'. tauto.
Qed.

(** ** Binary64 arithmetic *)

Module Float64Facts.
Import PrimFloat SpecFloat FloatOps FloatAxioms.
#[local] Set Warnings "-inexact-float".
#[local] Open Scope Z_scope.

Lemma Prim2SF_one : Prim2SF 1%float = S754_finite false 4503599627370496 (-52).
Proof. vm_compute. reflexivity. Qed.

Lemma div_eucl_mul (a b : Z) : 0 < b -> Z.div_eucl (a * b) b = (a, 0).
Proof.
  intros Hb.
  pose proof (Z.div_mul a b ltac:(lia)) as Hd.
  pose proof (Z.mod_mul a b ltac:(lia)) as Hm.
  unfold Z.div, Z.modulo in Hd, Hm.
  destruct (Z.div_eucl (a * b) b) as [q r]. simpl in *. congruence.
Qed.

(** Dividing a finite number by 1.0 is exact.  A number with 53 digits
    above the smallest exponent is divided with one more digit, which the
    rounding takes away again; the others are divided as they are. *)
Lemma SFdiv_one_finite (s : bool) (m : positive) (e : Z) :
  bounded prec emax m e = true ->
  SFdiv prec emax (S754_finite s m e) (S754_finite false 4503599627370496 (-52))
  = S754_finite s m e.
Proof.
  unfold bounded, canonical_mantissa. rewrite andb_true_iff, Z.eqb_eq, Z.leb_le.
  unfold fexp, SpecFloat.emin. change prec with 53. change emax with 1024.
  change (3 - 1024 - 53) with (-1074).
  intros [Hcan Hle].
  set (d := Z.pos (digits2_pos m)) in *.
  assert (1 <= d) as Hd by (unfold d; lia).
  unfold SFdiv, SFdiv_core_binary.
  change (Zdigits2 (Z.pos 4503599627370496)) with 53.
  change (Zdigits2 (Z.pos m)) with d.
  unfold fexp, SpecFloat.emin.
  change (3 - 1024 - 53) with (-1074).
  replace (xorb s false) with s by (destruct s; reflexivity).
  destruct (Z_lt_le_dec (-1074) (d + e - 53)) as [Hn|Hs].
  - assert (d = 53) as Hd53 by lia.
    replace (Z.min (Z.max (d + e - (53 + -52) - 53) (-1074)) (e - -52)) with (e - 1) by lia.
    replace (e - -52 - (e - 1)) with 53 by lia.
    rewrite Z.shiftl_mul_pow2 by lia.
    replace (Z.pos m * 2 ^ 53) with (Z.pos m~0 * 4503599627370496) by lia.
    rewrite div_eucl_mul by lia.
    change (new_location 4503599627370496 0) with loc_Exact.
    unfold binary_round_aux, shr_fexp.
    change (Zdigits2 (Z.pos m~0)) with (Z.pos (Pos.succ (digits2_pos m))).
    rewrite Pos2Z.inj_succ. fold d.
    unfold fexp, SpecFloat.emin. change (3 - 1024 - 53) with (-1074).
    replace (Z.max (Z.succ d + (e - 1) - 53) (-1074) - (e - 1)) with 1 by lia.
    cbn [shr_record_of_loc shr iter_pos shr_1 shr_m loc_of_shr_record round_nearest_even].
    replace (e - 1 + 1) with e by lia.
    change (round_nearest_even (Z.pos m)
              (if false || false then loc_Inexact Lt else loc_Exact))
      with (Z.pos m).
    change (Zdigits2 (Z.pos m)) with d.
    replace (Z.max (d + e - 53) (-1074) - e) with 0 by lia.
    cbn [shr shr_m].
    replace (e <=? 1024 - 53) with true by (symmetry; apply Z.leb_le; lia).
    reflexivity.
  - assert (e = -1074) as -> by lia.
    replace (Z.min (Z.max (d + -1074 - (53 + -52) - 53) (-1074)) (-1074 - -52))
      with (-1074) by lia.
    change (-1074 - -52 - -1074) with 52.
    rewrite Z.shiftl_mul_pow2 by lia.
    change (2 ^ 52) with 4503599627370496.
    rewrite div_eucl_mul by lia.
    change (new_location 4503599627370496 0) with loc_Exact.
    unfold binary_round_aux, shr_fexp.
    change (Zdigits2 (Z.pos m)) with d.
    unfold fexp, SpecFloat.emin. change (3 - 1024 - 53) with (-1074).
    replace (Z.max (d + -1074 - 53) (-1074) - -1074) with 0 by lia.
    cbn [shr_record_of_loc shr shr_m loc_of_shr_record orb].
    change (round_nearest_even (Z.pos m) loc_Exact) with (Z.pos m).
    change (Zdigits2 (Z.pos m)) with d.
    replace (Z.max (d + -1074 - 53) (-1074) - -1074) with 0 by lia.
    cbn [shr shr_m]. reflexivity.
Qed.

(** [x / 1.0] is [x], for every binary64 [x]: zeros, infinities and NaN
    included. *)
Lemma div_one (x : float) : (x / 1)%float = x.
Proof.
  apply Prim2SF_inj. rewrite div_spec, Prim2SF_one.
  pose proof (Prim2SF_valid x) as Hv.
  destruct (Prim2SF x) as [s|s| |s m e]; try reflexivity.
  - destruct s; reflexivity.
  - destruct s; reflexivity.
  - apply SFdiv_one_finite. exact Hv.
Qed.

(** Only the number 1.0 compares equal to 1.0. *)
Lemma eqb_one (x : float) : eqb x 1 = true -> x = 1%float.
Proof.
  rewrite eqb_spec, Prim2SF_one. intros H.
  apply Prim2SF_inj. rewrite Prim2SF_one.
  destruct (Prim2SF x) as [s|s| |s m e];
    [discriminate | destruct s; discriminate | discriminate |].
  unfold SFeqb, SFcompare in H.
  destruct s; [discriminate|].
  destruct (Z.compare_spec e (-52)) as [He| |]; try discriminate.
  rewrite Pos.compare_cont_spec in H. cbn [Pos.switch_Eq] in H.
  destruct (Pos.compare_spec m 4503599627370496) as [Hm| |]; try discriminate.
  rewrite He, Hm. reflexivity.
Qed.

(** The normalising loop of one row: every entry divided by the total, or
    the division by zero at the first entry. *)
Lemma normalise_in_binary64 (total : float) (d : Float64.Row) :
  res_map (fun kv => (q <-- Float64.py_div (snd kv) total ;; Val (fst kv, q))%res) d
  = if eqb total 0
    then match d with [] => Val [] | _ :: _ => Err ZeroDivisionError end
    else Val (Float64.divide_all total d).
Proof.
  destruct (eqb total 0) eqn:E.
  - destruct d as [|[k v] d]; [reflexivity|].
    cbn [res_map]. unfold Float64.py_div. cbn [snd]. rewrite E. reflexivity.
  - induction d as [|[k v] d IH]; [reflexivity|].
    cbn [res_map]. rewrite IH. unfold Float64.py_div. cbn [snd]. rewrite E.
    reflexivity.
Qed.

Lemma adjust_row_at_high_ratio (probs : Float64.Row) (active_ratio : float) :
  ltb active_ratio 0.5 = false ->
  Float64.adjust_row probs active_ratio
  = if eqb (Float64.py_sum (values probs)) 0
    then match probs with [] => Val [] | _ :: _ => Err ZeroDivisionError end
    else Val (Float64.divide_all (Float64.py_sum (values probs)) probs).
Proof.
  intros Hr. unfold Float64.adjust_row. rewrite Hr. cbn [res_bind].
  apply normalise_in_binary64.
Qed.

Lemma divide_all_one (d : Float64.Row) : Float64.divide_all 1 d = d.
Proof.
  induction d as [|[k v] d IH]; [reflexivity|].
  cbn [Float64.divide_all map fst snd]. rewrite div_one. f_equal. exact IH.
Qed.

(** A row whose total is 1.0 comes back as it was. *)
Lemma adjust_row_total_one (probs : Float64.Row) (active_ratio : float) :
  ltb active_ratio 0.5 = false ->
  eqb (Float64.py_sum (values probs)) 1 = true ->
  Float64.adjust_row probs active_ratio = Val probs.
Proof.
  intros Hr Ht. rewrite (adjust_row_at_high_ratio _ _ Hr).
  rewrite (eqb_one _ Ht).
  change (eqb 1 0) with false. cbv iota. rewrite divide_all_one. reflexivity.
Qed.






End Float64Facts.

(** ** The adjusted matrix in binary64 *)

Section InBinary64.
Import PrimFloat.
#[local] Set Warnings "-inexact-float".

(** C3, as the program computes it.  At a ratio that is not below 0.5 the
    rows are still divided by their totals, in binary64.  When the total of
    every row is the number 1.0 itself, as it is for the table of the
    program, the division changes nothing and the matrix comes back as it
    was: the same source states, the same keys, the same numbers bit for
    bit. *)
Theorem adjusted_equals_base_when_totals_are_one
    (transitions : Float64.Matrix) (active_ratio : float) :
  ltb active_ratio 0.5 = false ->
  Float64.totals_are_one transitions = true ->
  Float64.adjust_for_participation transitions active_ratio = Val transitions.
Proof.
  intros Hr. unfold Float64.totals_are_one, Float64.adjust_for_participation.
  induction transitions as [|[s probs] t IH]; [reflexivity|].
  cbn [forallb snd]. rewrite andb_true_iff. intros [Hrow Ht].
  cbn [res_map res_bind fst snd].
  rewrite (Float64Facts.adjust_row_total_one probs active_ratio Hr Hrow).
  cbn [res_bind]. rewrite (IH Ht). reflexivity.
Qed.

Lemma adjusted_equals_base_when_totals_are_one_witness :
  ltb 1 0.5 = false /\
  Float64.totals_are_one Float64.BASE_MARKOV_TRANSITIONS = true /\
  Float64.adjust_for_participation Float64.BASE_MARKOV_TRANSITIONS 1
  = Val Float64.BASE_MARKOV_TRANSITIONS.
Proof.
  assert (ltb 1 0.5 = false) as Hr by reflexivity.
  assert (Float64.totals_are_one Float64.BASE_MARKOV_TRANSITIONS = true) as Ht
    by (vm_compute; reflexivity).
  split; [exact Hr|]. split; [exact Ht|].
  exact (adjusted_equals_base_when_totals_are_one
           Float64.BASE_MARKOV_TRANSITIONS 1 Hr Ht).
Defined.

(** C3, as the specification words it, fails.  The probabilities 0.7, 0.1,
    0.1, 0.1 and 0.0 are not negative and add up to 1, but their binary64
    total, added from left to right, is 0.9999999999999999, and at a ratio
    of 1.0 the row comes back as 0.7000000000000001, 0.10000000000000002,
    0.10000000000000002, 0.10000000000000002, 0.0.  The second row, 0.5,
    0.5 and 2^-52, has the total 1.0000000000000002 in whatever order it is
    added, and comes back with 0.4999999999999999 in the place of 0.5. *)
Lemma adjusted_differs_from_base_counterexample :
  Float64.is_transition_matrix Float64.TENTHS = true /\
  leb 0.5 1 = true /\
  map (fun sp => Float64.py_sum (values (snd sp))) Float64.TENTHS
  = [0.9999999999999999; 1.0000000000000002]%float /\
  Float64.adjust_for_participation Float64.TENTHS 1
  = Val [ (up,   [(up, 0.7000000000000001); (down, 0.10000000000000002);
                  (flat, 0.10000000000000002); (crash, 0.10000000000000002);
                  (boom, 0.0)]);
          (down, [(up, 0.4999999999999999); (down, 0.4999999999999999);
                  (flat, 2.2204460492503126e-16); (crash, 0.0);
                  (boom, 0.0)]) ]%float /\
  forall adjusted,
    Float64.adjust_for_participation Float64.TENTHS 1 = Val adjusted ->
    Float64.matrix_eqb adjusted Float64.TENTHS = false /\
    adjusted <> Float64.TENTHS.
Proof.
  split; [vm_compute; reflexivity|].
  split; [reflexivity|].
  split; [vm_compute; reflexivity|].
  split; [vm_compute; reflexivity|].
  intros adjusted H.
  assert (Float64.matrix_eqb adjusted Float64.TENTHS = false) as Hne.
  { vm_compute in H. injection H as <-. vm_compute. reflexivity. }
  split; [exact Hne|].
  intros ->. vm_compute in Hne. discriminate.
Qed.





End InBinary64.

(** ** Drawing the next state *)

Lemma length_accumulate_from (acc : Q) (ws : list Q) :
  List.length (accumulate_from acc ws) = List.length ws.
Proof.
  revert acc. induction ws as [|w ws IH]; intros acc; simpl; [reflexivity|].
  now rewrite IH.
Qed.

Lemma length_accumulate (ws : list Q) :
  List.length (accumulate ws) = List.length ws.
Proof.
  destruct ws as [|w ws]; simpl; [reflexivity|].
  now rewrite length_accumulate_from.
Qed.

Lemma last_accumulate_from (acc : Q) (ws : list Q) :
  exists total rest,
    rev (acc :: accumulate_from acc ws) = total :: rest /\
    total == acc + py_sum ws.
Proof.
  revert acc. induction ws as [|w ws IH]; intros acc.
  - exists acc, []. split; [reflexivity|]. rewrite py_sum_nil. lra.
  - destruct (IH (acc + w)) as (total & rest & Hrev & Htotal).
    exists total, (rest ++ [acc]). split.
    + change (rev (acc :: accumulate_from acc (w :: ws)))
        with (rev ((acc + w) :: accumulate_from (acc + w) ws) ++ [acc]).
      rewrite Hrev. reflexivity.
    + rewrite Htotal, py_sum_cons. lra.
Qed.

Lemma bisect_le (a : list Q) (x : Q) (hi : nat) : (bisect a x hi <= hi)%nat.
Proof.
  revert a. induction hi as [|hi IH]; intros a.
  - destruct a; simpl; lia.
  - destruct a as [|y a]; simpl; [lia|].
    destruct (Qltb x y); [lia|]. specialize (IH a). lia.
Qed.

Lemma choices_defined {A : Type} (population : list A) (weights : list Q) (g : rng) :
  population <> [] ->
  List.length weights = List.length population ->
  0 < py_sum weights ->
  exists s, choices population weights g = Val (s, advance g) /\ In s population.
Proof.
  intros Hne Hlen Hpos. unfold choices.
  rewrite length_accumulate, Hlen, Nat.eqb_refl.
  destruct weights as [|w ws]; [destruct population; [contradiction | discriminate]|].
  destruct (last_accumulate_from w ws) as (total & rest & Hrev & Htotal).
  change (accumulate (w :: ws)) with (w :: accumulate_from w ws).
  cbv beta iota zeta. change (negb true) with false. cbv iota.
  rewrite Hrev.
  assert (Qle_bool total 0 = false) as Hle.
  { apply not_true_iff_false. rewrite Qle_bool_iff.
    rewrite py_sum_cons in Hpos. lra. }
  rewrite Hle. unfold bind, random.
  set (i := bisect _ _ _).
  assert (i < List.length population)%nat as Hi.
  { pose proof (bisect_le (w :: accumulate_from w ws)
                  (tape g (cursor g) * total) (List.length population - 1)).
    fold i in H. destruct population; [contradiction | simpl in *; lia]. }
  destruct (nth_error population i) as [s|] eqn:E.
  - exists s. split; [reflexivity|]. eapply nth_error_In; eauto.
  - apply nth_error_None in E. lia.
Qed.

(** ** One person, one period *)

Lemma multiplier_positive (s : MarketState) :
  exists m,
    getitem state_eqb MARKET_STATES s = Val m /\
    dict_get state_eqb s 0 MARKET_STATES = m /\
    0 < m.
Proof.
  destruct s; eexists; (split; [reflexivity|]); (split; [reflexivity|]); lra.
Qed.

Lemma decide_defined (self : Person) (s : MarketState) (market_index : Q) (g : rng) :
  exists self',
    decide self s market_index g = Val (self', advance g) /\
    personality self' = personality self /\
    value self' = value self.
Proof.
  destruct (stay_prob_of_defined (personality self) s) as [q Hq].
  unfold decide, bind. rewrite Hq. simpl.
  destruct (active self); simpl; unfold random, ret;
    match goal with
    | |- context [if ?c then _ else _] => destruct c
    end; eexists; (split; [reflexivity|]); split; reflexivity.
Qed.

Lemma update_value_defined (self : Person) (s : MarketState) :
  exists self',
    update_value self s = Val self' /\
    personality self' = personality self /\
    active self' = active self /\
    (0 < value self -> 0 < value self').
Proof.
  destruct (multiplier_positive s) as (m & Hm & _ & Hpos).
  unfold update_value. rewrite Hm. simpl.
  destruct (active self) eqn:Ha.
  - exists (set_value self (value self * m)). repeat split; simpl; auto.
    intros Hv. apply Qmult_lt_0_compat; assumption.
  - exists self. repeat split; auto.
Qed.

Lemma decide_and_update_defined
    (s : MarketState) (market_index : Q) (person : Person) (g : rng) :
  exists person',
    decide_and_update s market_index person g = Val (person', advance g) /\
    personality person' = personality person /\
    (0 < value person -> 0 < value person').
Proof.
  destruct (decide_defined person s market_index g) as (p1 & Hd & Hp1 & Hv1).
  destruct (update_value_defined p1 s) as (p2 & Hu & Hp2 & _ & Hv2).
  exists p2. unfold decide_and_update, bind. rewrite Hd. unfold lift. rewrite Hu.
  repeat split; [congruence|]. rewrite <- Hv1. exact Hv2.
Qed.

Lemma for_each_defined
    (s : MarketState) (market_index : Q) (persons : list Person) (g : rng) :
  exists persons' g',
    for_each (decide_and_update s market_index) persons g = Val (persons', g') /\
    List.length persons' = List.length persons /\
    (Forall (fun p => 0 < value p) persons ->
     Forall (fun p => 0 < value p) persons').
Proof.
  revert g. induction persons as [|p ps IH]; intros g.
  - exists [], g. repeat split; auto.
  - destruct (decide_and_update_defined s market_index p g) as (p' & Hp & _ & Hv).
    destruct (IH (advance g)) as (ps' & g' & Hps & Hlen & Hall).
    exists (p' :: ps'), g'. simpl. unfold bind. rewrite Hp, Hps.
    repeat split; [simpl; congruence|].
    intros H. inversion H; subst. constructor; auto.
Qed.

(** ** One year *)

Lemma base_is_transition_matrix : is_transition_matrix BASE_MARKOV_TRANSITIONS = true.
Proof. vm_compute. reflexivity. Qed.

Lemma adjusted_base_rows (active_ratio : Q) :
  exists adjusted,
    adjust_for_participation BASE_MARKOV_TRANSITIONS active_ratio = Val adjusted /\
    forall current_state,
      exists probs,
        getitem state_eqb adjusted current_state = Val probs /\
        keys probs = states /\
        py_sum (values probs) == 1.
Proof.
  destruct (res_map_Forall2
              (fun sp => (r <-- adjust_row (snd sp) active_ratio ;; Val (fst sp, r))%res)
              (fun y x => fst y = fst x /\
                          keys (snd y) = keys (snd x) /\
                          py_sum (values (snd y)) == 1)
              BASE_MARKOV_TRANSITIONS) as (adjusted & Hadj & Hall).
  { intros [s probs] Hin.
    destruct (adjust_row_sums_to_one probs active_ratio) as (row & Hrow & Hk & Hs & _);
      [exact (rows_are_distributions _ _ base_is_transition_matrix Hin)|].
    exists (s, row). simpl. rewrite Hrow. simpl. auto. }
  exists adjusted. split; [exact Hadj|].
  unfold BASE_MARKOV_TRANSITIONS in Hall.
  repeat match goal with
         | H : Forall2 _ _ (_ :: _) |- _ => inversion H; subst; clear H
         | H : Forall2 _ _ [] |- _ => inversion H; subst; clear H
         end.
  repeat match goal with
         | H : fst ?x = _ /\ _ /\ _ |- _ =>
             let k := fresh "k" in
             let r := fresh "r" in
             destruct x as [k r]; simpl in H; destruct H as (-> & ? & ?)
         end.
  intros []; eexists; (split; [reflexivity|]); split; assumption.
Qed.

Lemma len_nonzero {A : Type} (xs : list A) : xs <> [] -> Qeq_bool (len xs) 0 = false.
Proof.
  destruct xs as [|x xs]; [contradiction|]. intros _. reflexivity.
Qed.

Lemma simulate_year_defined
    (persons : list Person) (current : MarketState) (index : Q) (g : rng) :
  persons <> [] ->
  exists persons' next_state g',
    simulate_year persons current index g = Val ((persons', next_state), g') /\
    for_each (decide_and_update next_state index) persons (advance g)
      = Val (persons', g').
Proof.
  intros Hne. unfold simulate_year, bind, lift, py_div.
  rewrite (len_nonzero persons Hne).
  destruct (adjusted_base_rows (len (filter active persons) / len persons))
    as (adjusted & Hadj & Hrows).
  rewrite Hadj.
  destruct (Hrows current) as (probs & Hget & Hkeys & Hsum).
  rewrite Hget.
  destruct (choices_defined (keys probs) (values probs) g) as (next_state & Hch & _).
  { rewrite Hkeys. discriminate. }
  { unfold keys, values. now rewrite !length_map. }
  { rewrite Hsum. reflexivity. }
  rewrite Hch.
  destruct (for_each_defined next_state index persons (advance g))
    as (persons' & g' & Hfe & _).
  exists persons', next_state, g'. rewrite Hfe. split; reflexivity.
Qed.

Lemma multiplier_product_app (history : list MarketState) (st : MarketState) :
  multiplier_product (history ++ [st])
  = multiplier_product history * dict_get state_eqb st 0 MARKET_STATES.
Proof.
  unfold multiplier_product. rewrite fold_left_app. reflexivity.
Qed.

Lemma one_year_defined (s : Sim) (g : rng) :
  people s <> [] ->
  exists s' g' next_state m,
    one_year s g = Val (s', g') /\
    for_each (decide_and_update next_state (market_index s)) (people s) (advance g)
      = Val (people s', g') /\
    getitem state_eqb MARKET_STATES next_state = Val m /\
    dict_get state_eqb next_state 0 MARKET_STATES = m /\
    market_index s' = market_index s * m /\
    market_history s' = market_history s ++ [next_state] /\
    market_value_history s'
      = market_value_history s ++ [py_sum (map value (filter active (people s')))] /\
    current_state s' = next_state /\
    year s' = (year s + 1)%Z.
Proof.
  intros Hne.
  destruct (simulate_year_defined (people s) (current_state s) (market_index s) g Hne)
    as (persons' & next_state & g' & Hsim & Hfe).
  destruct (multiplier_positive next_state) as (m & Hm & Hget & _).
  unfold one_year, bind. rewrite Hsim. simpl. unfold lift. rewrite Hm.
  eexists; exists g', next_state, m. split; [reflexivity|]. simpl.
  repeat split; assumption.
Qed.

Lemma run_years_defined (n : nat) (s : Sim) (g : rng) :
  people s <> [] ->
  exists s' g',
    run_years n s g = Val (s', g') /\
    people s' <> [] /\
    year s' = (year s + Z.of_nat n)%Z /\
    List.length (market_history s') = (List.length (market_history s) + n)%nat /\
    List.length (market_value_history s')
      = (List.length (market_value_history s) + n)%nat /\
    (market_index s == multiplier_product (market_history s) ->
     market_index s' == multiplier_product (market_history s')) /\
    (Forall (fun p => 0 < value p) (people s) ->
     Forall (fun p => 0 < value p) (people s')).
Proof.
  revert s g. induction n as [|n IH]; intros s g Hne.
  - exists s, g. simpl. repeat split; auto; lia.
  - destruct (one_year_defined s g Hne)
      as (s1 & g1 & st & m & Hone & Hfe & _ & Hm & Hidx & Hh & Hv & _ & Hy).
    destruct (for_each_defined st (market_index s) (people s) (advance g))
      as (ps & g2 & Hfe' & Hlen & Hpos).
    rewrite Hfe in Hfe'. injection Hfe' as <- <-.
    assert (people s1 <> []) as Hne1.
    { intros E. rewrite E in Hlen. destruct (people s); [contradiction|discriminate]. }
    destruct (IH s1 g1 Hne1) as (s' & g' & Hrun & Hne' & Hy' & Hh' & Hv' & Hidx' & Hpos').
    exists s', g'. simpl. unfold bind. rewrite Hone.
    split; [exact Hrun|]. split; [exact Hne'|].
    split; [lia|].
    split; [rewrite Hh', Hh, length_app; simpl; lia|].
    split; [rewrite Hv', Hv, length_app; simpl; lia|].
    split.
    + intros Hinv. apply Hidx'. rewrite Hidx, Hh, multiplier_product_app, Hm, Hinv.
      reflexivity.
    + intros Hall. auto.
Qed.

(** ** The index passed to [decide] *)

(** C1, as the code has it.  After any number of periods the running index
    is the product of the multipliers of the states recorded so far; the
    next period passes that index, which does not yet include the
    multiplier of the state just drawn, to [decide] for every person, and
    only afterwards multiplies the index by that multiplier. *)
Theorem decide_sees_index_before_update (persons : list Person) (n : nat) (g : rng) :
  persons <> [] ->
  exists s g1 s' g2 next_state,
    run_years n (initial persons) g = Val (s, g1) /\
    market_index s == multiplier_product (market_history s) /\
    one_year s g1 = Val (s', g2) /\
    market_history s' = market_history s ++ [next_state] /\
    for_each (decide_and_update next_state (market_index s)) (people s) (advance g1)
      = Val (people s', g2) /\
    market_index s'
      == market_index s * dict_get state_eqb next_state 0 MARKET_STATES /\
    market_index s' == multiplier_product (market_history s').
Proof.
  intros Hne.
  destruct (run_years_defined n (initial persons) g Hne)
    as (s & g1 & Hrun & Hne1 & _ & _ & _ & Hidx & _).
  destruct (one_year_defined s g1 Hne1)
    as (s' & g2 & st & m & Hone & Hfe & _ & Hm & Hi & Hh & _).
  assert (market_index s == multiplier_product (market_history s)) as Hinv
    by (apply Hidx; reflexivity).
  exists s, g1, s', g2, st. repeat split; try assumption.
  - rewrite Hi, Hm. reflexivity.
  - rewrite Hi, Hh, multiplier_product_app, Hm, Hinv. reflexivity.
Qed.

Lemma decide_sees_index_before_update_witness :
  generate_people [average] <> [] /\
  exists s g1 s' g2 next_state,
    run_years 1 (initial (generate_people [average])) two_year_tape = Val (s, g1) /\
    market_index s == multiplier_product (market_history s) /\
    one_year s g1 = Val (s', g2) /\
    market_history s' = market_history s ++ [next_state] /\
    for_each (decide_and_update next_state (market_index s)) (people s) (advance g1)
      = Val (people s', g2) /\
    market_index s'
      == market_index s * dict_get state_eqb next_state 0 MARKET_STATES /\
    market_index s' == multiplier_product (market_history s').
Proof.
  assert (generate_people [average] <> []) as Hne by discriminate.
  split; [exact Hne|].
  exact (decide_sees_index_before_update (generate_people [average]) 1 two_year_tape Hne).
Defined.

(** C1, as the specification words it, fails.  One person, draws
    [two_year_tape]: after the first year (up, the person leaves) the index
    is 1.1; in the second year the market goes down.  The code passes 1.1
    to [decide], the chance of rejoining is 0.25 and the draw 0.3 keeps the
    person out with 1000; with the index updated first [decide] would get
    0.99, the chance would be 0.35, and the person would rejoin and hold
    900. *)
Lemma decide_sees_updated_index_counterexample :
  exists s1 g1 s2 g2 s2' g2',
    run_years 1 (initial (generate_people [average])) two_year_tape = Val (s1, g1) /\
    market_history s1 = [up] /\
    market_index s1 == 1.1 /\
    one_year s1 g1 = Val (s2, g2) /\
    spec_one_year s1 g1 = Val (s2', g2') /\
    market_history s2 = [up; down] /\
    market_history s2' = [up; down] /\
    map active (people s2) = [false] /\
    map active (people s2') = [true] /\
    one_year s1 g1 <> spec_one_year s1 g1.
Proof.
  do 6 eexists.
  split; [vm_compute; reflexivity|].
  split; [reflexivity|].
  split; [reflexivity|].
  split; [vm_compute; reflexivity|].
  split; [vm_compute; reflexivity|].
  split; [reflexivity|].
  split; [reflexivity|].
  split; [reflexivity|].
  split; [reflexivity|].
  intros H.
  apply (f_equal (fun r => match r with
                           | Val (s, _) => map active (people s)
                           | Err _ => []
                           end)) in H.
  vm_compute in H. discriminate.
Qed.

(** ** Values stay positive *)

Lemma live_positive (periods : list (MarketState * Q)) (self : Person) (g : rng) :
  0 < value self ->
  exists self' g',
    live periods self g = Val (self', g') /\
    personality self' = personality self /\
    0 < value self'.
Proof.
  revert self g. induction periods as [|[st idx] periods IH]; intros self g Hv.
  - exists self, g. repeat split; auto.
  - destruct (decide_and_update_defined st idx self g) as (p & Hp & Hpers & Hpos).
    destruct (IH p (advance g) (Hpos Hv)) as (self' & g' & Hl & Hpers' & Hv').
    exists self', g'. simpl. unfold bind. rewrite Hp.
    repeat split; [exact Hl | congruence | exact Hv'].
Qed.

(** C8. A person created with value 1000, of any personality, taken
    through any sequence of periods (any market states, any indices, any
    draws) comes out of every one of them, and with a strictly positive
    value: [update_value] either leaves the value alone or multiplies it by
    the multiplier of the state, and every multiplier is strictly
    positive. *)
Theorem value_stays_positive
    (p : Personality) (periods : list (MarketState * Q)) (g : rng) :
  (exists self g',
      live periods (new_Person p) g = Val (self, g') /\
      personality self = p /\
      0 < value self) /\
  (forall (person : Person) (st : MarketState),
      exists m,
        getitem state_eqb MARKET_STATES st = Val m /\
        0 < m /\
        update_value person st
          = Val (if active person
                 then set_value person (value person * m)
                 else person)).
Proof.
  split.
  - apply (live_positive periods (new_Person p) g). simpl. lra.
  - intros person st.
    destruct (multiplier_positive st) as (m & Hm & _ & Hpos).
    exists m. split; [exact Hm|]. split; [exact Hpos|].
    unfold update_value. rewrite Hm. destruct (active person); reflexivity.
Qed.

(** The same for the whole population after any number of simulated
    years. *)
Lemma population_values_positive (picked : list Personality) (n : nat) (g : rng) :
  picked <> [] ->
  exists s g',
    run_years n (initial (generate_people picked)) g = Val (s, g') /\
    Forall (fun person => 0 < value person) (people s).
Proof.
  intros Hne.
  destruct (run_years_defined n (initial (generate_people picked)) g)
    as (s & g' & Hrun & _ & _ & _ & _ & _ & Hpos).
  { destruct picked; [contradiction | discriminate]. }
  exists s, g'. split; [exact Hrun|]. apply Hpos.
  simpl. unfold generate_people. apply Forall_forall.
  intros person Hin. apply in_map_iff in Hin. destruct Hin as (q & <- & _).
  simpl. lra.
Qed.

(** ** The horizon *)

Lemma clamp_within (y interval : Z) :
  (0 <= y < 20)%Z ->
  (y + Z.of_nat (Z.to_nat (clamp y interval)) <= 20)%Z /\
  ((20 < y + interval)%Z -> Z.of_nat (Z.to_nat (clamp y interval)) = (20 - y)%Z) /\
  ((0 < interval)%Z -> (y + interval <= 20)%Z ->
   Z.of_nat (Z.to_nat (clamp y interval)) = interval).
Proof.
  intros Hy. unfold clamp.
  destruct (y + interval >? 20)%Z eqn:E.
  - apply Z.gtb_lt in E. repeat split; intros; lia.
  - assert (y + interval <= 20)%Z as Hle.
    { destruct (Z.gtb_spec (y + interval) 20); [discriminate | assumption]. }
    repeat split; intros; lia.
Qed.

Lemma sum_of_positive (inputs : list Z) :
  Forall (fun i => (0 < i)%Z) inputs -> (0 <= fold_right Z.add 0%Z inputs)%Z.
Proof.
  induction 1 as [|i inputs Hi _ IH]; simpl; lia.
Qed.

Lemma main_loop_spec (inputs : list Z) (s : Sim) (g : rng) :
  people s <> [] ->
  within_horizon s ->
  exists o g',
    main_loop inputs s g = Val (o, g') /\
    within_horizon (final o) /\
    (forall s', o = Finished s' -> year s' = 20%Z) /\
    (Forall (fun i => (0 < i)%Z) inputs ->
     (20 - year s <= fold_right Z.add 0%Z inputs)%Z ->
     exists s', o = Finished s').
Proof.
  revert s g. induction inputs as [|interval inputs IH]; intros s g Hne Hin.
  - cbn [main_loop]. destruct (year s <? 20)%Z eqn:E.
    + exists (AwaitingInput s), g.
      split; [reflexivity|]. split; [exact Hin|]. split; [discriminate|].
      intros _ Hsum. cbn [fold_right] in Hsum. apply Z.ltb_lt in E. lia.
    + exists (Finished s), g. apply Z.ltb_ge in E.
      split; [reflexivity|]. split; [exact Hin|]. split; [|eauto].
      intros s' [= <-]. destruct Hin as [[_ Hle] _]. lia.
  - cbn [main_loop]. destruct (year s <? 20)%Z eqn:E.
    + apply Z.ltb_lt in E.
      destruct Hin as ([Hy0 Hy20] & Hh & Hv).
      destruct (clamp_within (year s) interval (conj Hy0 E)) as (Hc & Hover & Hfit).
      destruct (run_years_defined (Z.to_nat (clamp (year s) interval)) s g Hne)
        as (s1 & g1 & Hrun & Hne1 & Hy1 & Hh1 & Hv1 & _).
      assert (within_horizon s1) as Hin1.
      { unfold within_horizon. rewrite Hh1, Hv1, Hy1, !Nat2Z.inj_add.
        repeat split; lia. }
      destruct (IH s1 g1 Hne1 Hin1) as (o & g' & Hloop & Hino & Hfin & Hterm).
      exists o, g'. unfold bind. rewrite Hrun.
      split; [exact Hloop|]. split; [exact Hino|]. split; [exact Hfin|].
      intros Hpos Hsum. inversion Hpos as [|? ? Hi Hrest]; subst.
      apply Hterm; [exact Hrest|]. cbn [fold_right] in Hsum.
      pose proof (sum_of_positive inputs Hrest).
      destruct (Z_lt_le_dec 20 (year s + interval)) as [Hgt|Hle].
      * rewrite Hy1, (Hover Hgt). lia.
      * rewrite Hy1, (Hfit Hi Hle). lia.
    + exists (Finished s), g. apply Z.ltb_ge in E.
      split; [reflexivity|]. split; [exact Hin|]. split; [|eauto].
      intros s' [= <-]. destruct Hin as [[_ Hle] _]. lia.
Qed.

Lemma initial_within_horizon (persons : list Person) : within_horizon (initial persons).
Proof. unfold within_horizon. simpl. lia. Qed.

Lemma overshoot_is_clamped
    (interval : Z) (inputs : list Z) (s : Sim) (g : rng) :
  people s <> [] ->
  within_horizon s ->
  (year s < 20)%Z ->
  (20 < year s + interval)%Z ->
  exists s' g',
    run_years (Z.to_nat (20 - year s)) s g = Val (s', g') /\
    main_loop (interval :: inputs) s g = Val (Finished s', g') /\
    year s' = 20%Z /\
    Z.of_nat (List.length (market_history s'))
      = (Z.of_nat (List.length (market_history s)) + (20 - year s))%Z.
Proof.
  intros Hne Hin Hlt Hover.
  destruct (run_years_defined (Z.to_nat (20 - year s)) s g Hne)
    as (s' & g' & Hrun & _ & Hy & Hh & _).
  assert (clamp (year s) interval = (20 - year s)%Z) as Hc.
  { unfold clamp. destruct (Z.gtb_spec (year s + interval) 20); [reflexivity | lia]. }
  assert (year s' = 20%Z) as Hy' by lia.
  exists s', g'. split; [exact Hrun|]. split.
  - cbn [main_loop]. apply Z.ltb_lt in Hlt. rewrite Hlt, Hc. unfold bind. rewrite Hrun.
    destruct inputs; cbn [main_loop]; rewrite Hy'; reflexivity.
  - split; [exact Hy'|]. rewrite Hh, Nat2Z.inj_add. lia.
Qed.

Lemma run_years_no_people (n : nat) (s : Sim) (g : rng) :
  people s = [] -> run_years (S n) s g = Err ZeroDivisionError.
Proof.
  intros H. cbn [run_years]. unfold bind, one_year, bind, simulate_year, bind.
  rewrite H. reflexivity.
Qed.

Lemma main_loop_no_people (inputs : list Z) (s : Sim) (g : rng) :
  people s = [] ->
  match main_loop inputs s g with
  | Val (o, _) => final o = s /\ (forall s', o = Finished s' -> (20 <= year s')%Z)
  | Err e => e = ZeroDivisionError
  end.
Proof.
  intros Hs. induction inputs as [|interval inputs IH]; cbn [main_loop].
  - destruct (year s <? 20)%Z eqn:E; simpl.
    + split; [reflexivity | discriminate].
    + apply Z.ltb_ge in E. split; [reflexivity|]. intros s' [= <-]. exact E.
  - destruct (year s <? 20)%Z eqn:E.
    + destruct (Z.to_nat (clamp (year s) interval)) as [|n].
      * exact IH.
      * unfold bind. rewrite (run_years_no_people n s g Hs). reflexivity.
    + apply Z.ltb_ge in E. simpl. split; [reflexivity|]. intros s' [= <-]. exact E.
Qed.

(** C9. Whatever intervals are typed and whatever the draws, the loop
    raises only when there is nobody to simulate (a division by zero people
    in the first simulated year); otherwise the year never exceeds 20 and
    always equals the number of recorded periods, and a loop that has ended
    has recorded exactly 20.  With at least one person the loop does end
    once the typed intervals are positive and add up to at least 20.  An
    interval that would overshoot is cut to the years that remain, after
    which the loop has ended (15 requested with 5 remaining simulates
    5). *)
Theorem horizon_never_exceeded (persons : list Person) (inputs : list Z) (g : rng) :
  match main_loop inputs (initial persons) g with
  | Val (o, _) =>
      within_horizon (final o) /\
      (forall s, o = Finished s ->
                 List.length (market_history s) = 20%nat /\
                 List.length (market_value_history s) = 20%nat) /\
      (persons <> [] ->
       Forall (fun i => (0 < i)%Z) inputs ->
       (20 <= fold_right Z.add 0%Z inputs)%Z ->
       exists s, o = Finished s)
  | Err e => persons = [] /\ e = ZeroDivisionError
  end /\
  (forall (s : Sim) (interval : Z) (rest : list Z) (g0 : rng),
      people s <> [] -> within_horizon s ->
      (year s < 20)%Z -> (20 < year s + interval)%Z ->
      exists s' g',
        run_years (Z.to_nat (20 - year s)) s g0 = Val (s', g') /\
        main_loop (interval :: rest) s g0 = Val (Finished s', g') /\
        year s' = 20%Z /\
        Z.of_nat (List.length (market_history s'))
          = (Z.of_nat (List.length (market_history s)) + (20 - year s))%Z) /\
  clamp 15 15 = 5%Z.
Proof.
  split; [|split; [|reflexivity]].
  - destruct persons as [|p ps].
    + pose proof (main_loop_no_people inputs (initial []) g eq_refl) as H.
      destruct (main_loop inputs (initial []) g) as [[o g']|e]; [|auto].
      destruct H as [Ho Hfin]. split; [|split].
      * rewrite Ho. apply initial_within_horizon.
      * intros s ->. specialize (Hfin s eq_refl).
        cbn [final] in Ho. subst s. cbn [year initial] in Hfin. lia.
      * intros Hne. contradiction.
    + assert (people (initial (p :: ps)) <> []) as Hne by discriminate.
      destruct (main_loop_spec inputs (initial (p :: ps)) g Hne
                  (initial_within_horizon (p :: ps)))
        as (o & g' & Hloop & Hin & Hfin & Hterm).
      rewrite Hloop. split; [exact Hin|]. split.
      * intros s Ho. specialize (Hfin s Ho). subst o.
        destruct Hin as (_ & Hh & Hv). cbn [final] in Hh, Hv. lia.
      * intros _ Hpos Hsum. apply Hterm; [exact Hpos|]. cbn [year initial]. lia.
  - intros s interval rest g0 Hs Hin Hlt Hover.
    exact (overshoot_is_clamped interval rest s g0 Hs Hin Hlt Hover).
Qed.

(** Fifteen years requested twice: fifteen are simulated, then the five
    that remain. *)
Example fifteen_then_five :
  exists s g',
    main_loop [15; 15]%Z (initial (generate_people [average])) two_year_tape
      = Val (Finished s, g') /\
    year s = 20%Z /\
    List.length (market_history s) = 20%nat.
Proof.
  do 2 eexists. split; [vm_compute; reflexivity|]. split; reflexivity.
Qed.

(** ** Reports *)

Lemma length_insert_sorted (x : Q) (xs : list Q) :
  List.length (insert_sorted x xs) = S (List.length xs).
Proof.
  induction xs as [|y ys IH]; simpl; [reflexivity|].
  destruct (Qltb x y); simpl; [reflexivity | now rewrite IH].
Qed.

Lemma length_sorted (xs : list Q) : List.length (sorted xs) = List.length xs.
Proof.
  unfold sorted.
  assert (forall acc,
             List.length (fold_left (fun acc x => insert_sorted x acc) xs acc)
             = (List.length xs + List.length acc)%nat) as H.
  { induction xs as [|x xs IH]; intros acc; simpl; [reflexivity|].
    rewrite IH, length_insert_sorted. lia. }
  rewrite H. simpl. lia.
Qed.

Lemma statistics_median_defined (data : list Q) :
  data <> [] -> exists m, statistics_median data = Val m.
Proof.
  intros Hne. unfold statistics_median.
  pose proof (length_sorted data) as Hlen.
  set (sd := sorted data) in *.
  set (n := List.length sd) in *.
  assert (0 < n)%nat as Hn.
  { rewrite Hlen. destruct data; [contradiction | simpl; lia]. }
  destruct (Nat.eqb_spec n 0) as [E|_]; [lia|].
  assert (n / 2 < n)%nat as Hhalf by (apply Nat.div_lt; lia).
  destruct (Nat.eqb (n mod 2) 1).
  - destruct (nth_error sd (n / 2)) as [x|] eqn:E; [eauto|].
    apply nth_error_None in E. fold n in E. lia.
  - destruct (nth_error sd (n / 2 - 1)) as [a|] eqn:Ea.
    + destruct (nth_error sd (n / 2)) as [b|] eqn:Eb; [eauto|].
      apply nth_error_None in Eb. fold n in Eb. lia.
    + apply nth_error_None in Ea. fold n in Ea. lia.
Qed.

Lemma setitem_nonempty (c : dict Q nat) (k : Q) (v : nat) :
  setitem Qeq_bool c k v <> [].
Proof.
  destruct c as [|[k' v'] c]; simpl; [discriminate|].
  destruct (Qeq_bool k k'); discriminate.
Qed.

Lemma Counter_nonempty (data : list Q) : data <> [] -> Counter data <> [].
Proof.
  unfold Counter.
  assert (forall c, data <> [] \/ c <> [] ->
             fold_left
               (fun c elem =>
                  setitem Qeq_bool c elem (dict_get Qeq_bool elem O c + 1)%nat)
               data c <> []) as H.
  { induction data as [|x xs IH]; intros c Hc; simpl.
    - destruct Hc as [Hc|Hc]; [contradiction | exact Hc].
    - apply IH. right. apply setitem_nonempty. }
  intros Hne. apply H. now left.
Qed.

(** On data that is not empty [statistics.mode] returns a value, so the
    [except] branch is never taken and the sentinel never stored. *)
Lemma mode_never_sentinel (values : list Q) :
  values <> [] ->
  exists m,
    statistics_mode values = Val m /\
    mode_or_sentinel values = Val (ModeValue (round2 m)).
Proof.
  intros Hne. unfold mode_or_sentinel, statistics_mode.
  pose proof (Counter_nonempty values Hne) as Hc.
  destruct (Counter values) as [|kv c]; [contradiction|].
  simpl. eexists. split; reflexivity.
Qed.

(** [round_half_even] returns an integer at most one half away. *)
Lemma round_half_even_near (q : Q) :
  Qabs (inject_Z (round_half_even q) - q) <= 1 # 2.
Proof.
  pose proof (Qfloor_le q) as H1. pose proof (Qlt_floor q) as H2.
  unfold round_half_even.
  set (f := Qfloor q) in *. rewrite inject_Z_plus in H2.
  change (inject_Z 1) with 1 in H2.
  case_Qltb (q - inject_Z f) (1 # 2).
  - apply Qabs_case; intros; lra.
  - case_Qltb (1 # 2) (q - inject_Z f).
    + rewrite inject_Z_plus. change (inject_Z 1) with 1.
      apply Qabs_case; intros; lra.
    + destruct (Z.even f).
      * apply Qabs_case; intros; lra.
      * rewrite inject_Z_plus. change (inject_Z 1) with 1.
        apply Qabs_case; intros; lra.
Qed.

(** [round2] returns a whole number of hundredths at most half a hundredth
    away from its argument. *)
Lemma round2_near (x : Q) : Qabs (round2 x - x) <= 1 # 200.
Proof.
  pose proof (round_half_even_near (x * 100)) as H.
  unfold round2. set (z := round_half_even (x * 100)) in *.
  assert (z # 100 == inject_Z z * (1 # 100)) as E
    by (rewrite Qmake_Qdiv; reflexivity).
  rewrite E. clearbody z. set (w := inject_Z z) in *.
  apply Qabs_Qle_condition in H. destruct H as [H1 H2].
  apply Qabs_Qle_condition. split; lra.
Qed.

(** C10. Both reports first round every person's value to two decimals
    and compute every statistic from the rounded list.  The list holds, for
    each person in turn, a whole number of hundredths at most half a
    hundredth away from the person's value.  For an empty group the reports
    say that there is no data; otherwise none of the statistics raises, and
    the mean, median, mode, minimum and maximum that [generate_report]
    stores and [stats_report] prints are those of the rounded list.  The
    values themselves play no other part: two groups with the same rounded
    values get the same reports.  And the rounding shows: for the values
    257/256, 257/256 and 259/256 the report gives the mean 1.00, that of
    1.00, 1.00 and 1.01, where the mean of the values themselves would
    round to 1.01. *)
Theorem reports_use_rounded_values (group : list Person) (name : string) :
  let values := map (fun p => round2 (value p)) group in
  Forall2 (fun v p =>
             v = round2 (value p) /\
             (exists hundredths : Z, v = hundredths # 100) /\
             Qabs (v - value p) <= 1 # 200)
          values group /\
  match group with
  | [] =>
      generate_report group = Val NoData /\
      stats_report group name = Val [Header name 0; NoDataLine]
  | _ :: _ =>
      exists mean median mn mx mode,
        statistics_mean values = Val mean /\
        statistics_median values = Val median /\
        py_min_list values = Val mn /\
        py_max_list values = Val mx /\
        mode_or_sentinel values = Val mode /\
        generate_report group
          = Val (ReportDict {| r_mean := round2 mean;
                               r_median := round2 median;
                               r_min := round2 mn;
                               r_max := round2 mx;
                               r_mode := mode |}) /\
        stats_report group name
          = Val [Header name (List.length group);
                 MeanLine (round2 mean); MedianLine (round2 median);
                 ModeLine mode; MinLine mn; MaxLine mx]
  end /\
  (forall other : list Person,
      map (fun p => round2 (value p)) other = values ->
      generate_report other = generate_report group /\
      stats_report other name = stats_report group name) /\
  exists report raw_mean,
    generate_report (map person_with [257 # 256; 257 # 256; 259 # 256])
    = Val (ReportDict report) /\
    statistics_mean [257 # 256; 257 # 256; 259 # 256] = Val raw_mean /\
    r_mean report == 1 /\
    round2 raw_mean == 1.01.
Proof.
  intros values. split; [|split; [|split]].
  - subst values. induction group as [|p ps IH]; [constructor|].
    cbn [map]. constructor; [|exact IH].
    split; [reflexivity|]. split; [|apply round2_near].
    exists (round_half_even (value p * 100)). reflexivity.
  - destruct group as [|p ps]; [split; reflexivity|].
    assert (values <> []) as Hne by discriminate.
    destruct (statistics_median_defined values Hne) as [median Hmed].
    destruct (mode_never_sentinel values Hne) as (m & _ & Hmode).
    unfold generate_report, stats_report. fold values.
    rewrite Hmed, Hmode.
    assert (List.length values = List.length (p :: ps)) as Hlen
      by (unfold values; apply length_map).
    rewrite Hlen.
    subst values. cbn [map] in *.
    do 5 eexists. repeat split; reflexivity.
  - intros other H. unfold generate_report, stats_report. fold values.
    rewrite H. split; reflexivity.
  - eexists. eexists.
    split; [vm_compute; reflexivity|].
    split; [reflexivity|]. split; reflexivity.
Qed.

(** Groups whose values agree after rounding get the same report. *)
Lemma reports_depend_on_rounded_values (g1 g2 : list Person) (name : string) :
  map (fun p => round2 (value p)) g1 = map (fun p => round2 (value p)) g2 ->
  generate_report g1 = generate_report g2 /\
  stats_report g1 name = stats_report g2 name.
Proof.
  intros H. unfold generate_report, stats_report. rewrite H. split; reflexivity.
Qed.

(** Rounding first is visible: the mean of 1.006, 1.006 and 1.003 is 1.005
    and would round to 1.00, but the report shows 1.01, the rounded mean of
    1.01, 1.01 and 1.00. *)
Example rounding_comes_first :
  exists r,
    generate_report (map person_with [1.006; 1.006; 1.003]) = Val (ReportDict r) /\
    r_mean r == 1.01 /\
    exists raw_mean,
      statistics_mean [1.006; 1.006; 1.003] = Val raw_mean /\
      round2 raw_mean == 1.
Proof.
  eexists. split; [vm_compute; reflexivity|]. split; [reflexivity|].
  eexists. split; reflexivity.
Qed.

(** ** The mode of tied values *)

(** C2, at the inputs the specification names.  For the values 1, 1, 2, 2
    both reports give the mode 1, the first of the two tied values, where
    the specification asks for the sentinel; for 1, 1, 1, 2 the mode is 1
    as the specification says. *)
Theorem tied_mode_is_first_value :
  (exists r m,
      generate_report (map person_with [1; 1; 2; 2]) = Val (ReportDict r) /\
      r_mode r = ModeValue m /\ m == 1 /\ r_mode r <> NoUniqueMode) /\
  (exists lines m,
      stats_report (map person_with [1; 1; 2; 2]) "Active Participants" = Val lines /\
      nth_error lines 3 = Some (ModeLine (ModeValue m)) /\ m == 1) /\
  (exists r m,
      generate_report (map person_with [1; 1; 1; 2]) = Val (ReportDict r) /\
      r_mode r = ModeValue m /\ m == 1) /\
  statistics_mode [1; 1; 2; 2] = Val 1.
Proof.
  split; [|split; [|split]].
  - do 2 eexists. split; [vm_compute; reflexivity|].
    split; [reflexivity|]. split; [reflexivity | discriminate].
  - do 2 eexists. split; [vm_compute; reflexivity|].
    split; reflexivity.
  - do 2 eexists. split; [vm_compute; reflexivity|].
    split; reflexivity.
  - reflexivity.
Qed.

(** ** The constants in binary64 *)

Module Binary64Facts.
Import PrimFloat.
#[local] Set Warnings "-inexact-float".

(** Every row of the base table adds up to exactly 1.0 in binary64, so the
    normalising division returns each entry bit for bit. *)
Example base_rows_exact_in_binary64 :
  map Binary64.row_total Binary64.BASE_ROWS = [1; 1; 1; 1; 1]%float /\
  map Binary64.normalised Binary64.BASE_ROWS = Binary64.BASE_ROWS.
Proof. split; vm_compute; reflexivity. Qed.

(** The two raised re-entry chances are the binary64 numbers 0.5 and
    0.35. *)
Example reentry_chances_exact_in_binary64 :
  (0.25 + 0.25 = 0.5)%float /\ (0.25 + 0.1 = 0.35)%float.
Proof. split; vm_compute; reflexivity. Qed.

End Binary64Facts.

(** * Further properties of the code *)

(** ** [decide] and [update_value] *)

(** X1. [decide] never raises, reads exactly one draw whichever branch it
    takes, and touches neither the value nor the personality; the flag
    changes only from inactive to active on a draw below the re-entry
    chance, or from active to inactive on a draw above the stay-in
    probability. *)
Theorem decide_reads_one_draw
    (self : Person) (s : MarketState) (index : Q) (g : rng) :
  exists self' q,
    decide self s index g = Val (self', advance g) /\
    personality self' = personality self /\
    value self' = value self /\
    stay_prob_of (personality self) s = Val q /\
    active self' =
      (if active self
       then negb (Qltb q (tape g (cursor g)))
       else Qltb (tape g (cursor g)) (base_chance index)).
Proof.
  destruct (stay_prob_of_defined (personality self) s) as [q Hq].
  unfold decide, bind. rewrite Hq. simpl.
  destruct (active self) eqn:Ha; simpl; unfold random, ret;
    match goal with
    | |- context [if ?c then _ else _] => destruct c eqn:E
    end; eexists; exists q; repeat split; simpl; rewrite ?E, ?Ha; auto.
Qed.

(** X2. Deciding comes before the value changes: after the two calls the
    value has been multiplied by the multiplier of the state exactly when
    the person is active after [decide]; a person who has just left keeps
    the old value, and a person who has just come back takes the change of
    the same period. *)
Theorem multiplier_applies_after_deciding
    (s : MarketState) (index : Q) (person : Person) (g : rng) :
  exists decided person' m,
    decide person s index g = Val (decided, advance g) /\
    decide_and_update s index person g = Val (person', advance g) /\
    getitem state_eqb MARKET_STATES s = Val m /\
    active person' = active decided /\
    value person' = (if active decided then value person * m else value person).
Proof.
  destruct (decide_defined person s index g) as (decided & Hd & _ & Hv).
  destruct (multiplier_positive s) as (m & Hm & _ & _).
  unfold decide_and_update, bind. rewrite Hd. unfold lift, update_value.
  rewrite Hm. simpl.
  destruct (active decided) eqn:Ha; eexists; eexists; exists m;
    (split; [reflexivity|]); (split; [reflexivity|]); (split; [reflexivity|]);
    simpl; rewrite ?Ha, ?Hv; split; reflexivity.
Qed.

(** X3. The chance of coming back never grows with the index, and always
    lies between 0.25 and 0.5. *)
Theorem base_chance_antitone (index1 index2 : Q) :
  index1 <= index2 ->
  base_chance index2 <= base_chance index1 /\
  0.25 <= base_chance index1 /\ base_chance index1 <= 0.5.
Proof.
  intros Hle. unfold base_chance.
  case_Qltb index1 0.8; case_Qltb index2 0.8;
    try case_Qltb index1 1.0; try case_Qltb index2 1.0;
    repeat split; try lra.
Qed.

Lemma base_chance_antitone_witness :
  0.7 <= 0.9 /\
  base_chance 0.9 <= base_chance 0.7 /\
  0.25 <= base_chance 0.7 /\ base_chance 0.7 <= 0.5.
Proof.
  assert (0.7 <= 0.9) as H by lra.
  split; [exact H|]. exact (base_chance_antitone 0.7 0.9 H).
Defined.

(** ** One simulated year *)

Lemma for_each_frame
    (s : MarketState) (index : Q) (persons : list Person) (g : rng) :
  exists persons' g',
    for_each (decide_and_update s index) persons g = Val (persons', g') /\
    map personality persons' = map personality persons /\
    tape g' = tape g /\
    cursor g' = (cursor g + List.length persons)%nat.
Proof.
  revert g. induction persons as [|p ps IH]; intros g.
  - exists [], g. repeat split; simpl; auto.
  - destruct (decide_and_update_defined s index p g) as (p' & Hp & Hpers & _).
    destruct (IH (advance g)) as (ps' & g' & Hps & Hmap & Ht & Hc).
    exists (p' :: ps'), g'. cbn [for_each]. unfold bind. rewrite Hp, Hps.
    split; [reflexivity|]. simpl. rewrite Hpers, Hmap, Ht, Hc. simpl.
    repeat split. lia.
Qed.

(** X5. [simulate_year] raises exactly when there is nobody to simulate
    (the participation ratio divides by the number of people), and then it
    is a [ZeroDivisionError]; otherwise it returns the same people in the
    same order with their personalities, and has read exactly one draw for
    the market and one for each person. *)
Theorem simulate_year_reads_one_draw_each
    (persons : list Person) (current : MarketState) (index : Q) (g : rng) :
  match simulate_year persons current index g with
  | Val ((persons', _), g') =>
      persons <> [] /\
      map personality persons' = map personality persons /\
      tape g' = tape g /\
      cursor g' = (cursor g + 1 + List.length persons)%nat
  | Err e => persons = [] /\ e = ZeroDivisionError
  end.
Proof.
  destruct persons as [|p ps].
  - split; reflexivity.
  - assert (p :: ps <> []) as Hne by discriminate.
    destruct (simulate_year_defined (p :: ps) current index g Hne)
      as (persons' & st & g' & Hsim & Hfe).
    rewrite Hsim.
    destruct (for_each_frame st index (p :: ps) (advance g))
      as (persons2 & g2 & Hfe2 & Hmap & Ht & Hc).
    rewrite Hfe in Hfe2. injection Hfe2 as <- <-.
    split; [exact Hne|]. split; [exact Hmap|]. split; [exact Ht|].
    rewrite Hc. simpl. lia.
Qed.

Lemma run_years_frame (n : nat) (s : Sim) (g : rng) :
  people s <> [] ->
  exists s' g',
    run_years n s g = Val (s', g') /\
    map personality (people s') = map personality (people s) /\
    tape g' = tape g /\
    cursor g' = (cursor g + n * (1 + List.length (people s)))%nat /\
    (current_state s = last (market_history s) flat ->
     current_state s' = last (market_history s') flat).
Proof.
  revert s g. induction n as [|n IH]; intros s g Hne.
  - exists s, g. simpl. repeat split; auto.
  - destruct (one_year_defined s g Hne)
      as (s1 & g1 & st & m & Hone & Hfe & _ & _ & _ & Hh & _ & Hcs & _).
    destruct (for_each_frame st (market_index s) (people s) (advance g))
      as (ps & g2 & Hfe' & Hmap & Ht & Hc).
    rewrite Hfe in Hfe'. injection Hfe' as <- <-.
    assert (people s1 <> []) as Hne1.
    { intros E. rewrite E in Hmap. destruct (people s); [contradiction|discriminate]. }
    destruct (IH s1 g1 Hne1) as (s' & g' & Hrun & Hmap' & Ht' & Hc' & Hlast).
    exists s', g'. cbn [run_years]. unfold bind. rewrite Hone.
    split; [exact Hrun|]. split; [congruence|].
    split; [rewrite Ht', Ht; reflexivity|]. split.
    + rewrite Hc', Hc. simpl cursor.
      assert (List.length (people s1) = List.length (people s)) as Hlen
        by (rewrite <- (length_map personality), Hmap, length_map; reflexivity).
      rewrite Hlen. lia.
    + intros _. apply Hlast. rewrite Hh, last_last. exact Hcs.
Qed.

(** X6. A run of [n] years over at least one person keeps the people and
    their personalities, reads exactly [n * (1 + number of people)] draws
    whatever happens in between, and leaves [current_state] equal to the
    last state of the history (or to the starting state ["flat"] when
    nothing was simulated). *)
Theorem run_years_keeps_people_and_counts_draws
    (n : nat) (persons : list Person) (g : rng) :
  persons <> [] ->
  exists s g',
    run_years n (initial persons) g = Val (s, g') /\
    map personality (people s) = map personality persons /\
    tape g' = tape g /\
    cursor g' = (cursor g + n * (1 + List.length persons))%nat /\
    current_state s = last (market_history s) flat.
Proof.
  intros Hne.
  destruct (run_years_frame n (initial persons) g Hne)
    as (s & g' & Hrun & Hmap & Ht & Hc & Hlast).
  exists s, g'. repeat split; auto.
Qed.

Lemma run_years_keeps_people_and_counts_draws_witness :
  generate_people [average; greedy] <> [] /\
  exists s g',
    run_years 3 (initial (generate_people [average; greedy])) two_year_tape
      = Val (s, g') /\
    map personality (people s)
      = map personality (generate_people [average; greedy]) /\
    tape g' = tape two_year_tape /\
    cursor g'
      = (cursor two_year_tape
         + 3 * (1 + List.length (generate_people [average; greedy])))%nat /\
    current_state s = last (market_history s) flat.
Proof.
  assert (generate_people [average; greedy] <> []) as Hne by discriminate.
  split; [exact Hne|].
  exact (run_years_keeps_people_and_counts_draws
           3 (generate_people [average; greedy]) two_year_tape Hne).
Defined.

(** ** States that cannot follow *)

Lemma bisect_picks_positive {A : Type} (ws : list Q) :
  forall (pop : list A) (acc x : Q),
    List.length pop = List.length ws ->
    ws <> [] ->
    acc <= x -> x < acc + py_sum ws ->
    exists s w,
      nth_error pop (bisect (accumulate_from acc ws) x (List.length ws - 1)) = Some s /\
      In (s, w) (combine pop ws) /\
      0 < w.
Proof.
  induction ws as [|w ws IH]; intros pop acc x Hlen Hne Hlo Hhi; [contradiction|].
  destruct pop as [|p pop]; [discriminate|].
  rewrite py_sum_cons in Hhi.
  destruct ws as [|w2 ws].
  - exists p, w. rewrite py_sum_nil in Hhi. simpl.
    split; [reflexivity|]. split; [now left | lra].
  - cbn [List.length Nat.sub accumulate_from]. rewrite ?Nat.sub_0_r.
    cbn [bisect].
    case_Qltb x (acc + w).
    + exists p, w. split; [reflexivity|]. split; [now left | lra].
    + destruct (IH pop (acc + w) x) as (s & w' & Hnth & Hin & Hpos).
      * simpl in Hlen. simpl. lia.
      * discriminate.
      * exact Hcmp.
      * lra.
      * exists s, w'. split; [|split; [now right | exact Hpos]].
        cbn [List.length Nat.sub] in Hnth. rewrite ?Nat.sub_0_r in Hnth.
        exact Hnth.
Qed.

Lemma choices_picks_positive {A : Type}
    (population : list A) (weights : list Q) (g : rng) :
  population <> [] ->
  List.length weights = List.length population ->
  0 < py_sum weights ->
  0 <= tape g (cursor g) -> tape g (cursor g) < 1 ->
  exists s w,
    choices population weights g = Val (s, advance g) /\
    In (s, w) (combine population weights) /\
    0 < w.
Proof.
  intros Hne Hlen Hpos Hu0 Hu1. unfold choices.
  rewrite length_accumulate, Hlen, Nat.eqb_refl.
  destruct weights as [|w ws]; [destruct population; [contradiction | discriminate]|].
  destruct population as [|p pop]; [contradiction|].
  destruct (last_accumulate_from w ws) as (total & rest & Hrev & Htotal).
  change (accumulate (w :: ws)) with (w :: accumulate_from w ws).
  cbv beta iota zeta. change (negb true) with false. cbv iota.
  rewrite Hrev.
  rewrite py_sum_cons in Hpos.
  assert (0 < total) as Htpos by lra.
  assert (Qle_bool total 0 = false) as Hle.
  { apply not_true_iff_false. rewrite Qle_bool_iff. lra. }
  rewrite Hle. unfold bind, random.
  set (x := tape g (cursor g) * total).
  assert (0 <= x /\ x < total) as [Hx0 Hx1] by (unfold x; split; nra).
  cbn [List.length Nat.sub]. rewrite ?Nat.sub_0_r.
  destruct ws as [|w2 ws].
  - destruct pop; [|discriminate].
    rewrite py_sum_nil in Htotal.
    exists p, w. simpl. split; [reflexivity|]. split; [now left | lra].
  - destruct pop as [|p2 pop]; [discriminate|].
    cbn [List.length bisect].
    case_Qltb x w.
    + exists p, w. split; [reflexivity|]. split; [now left | lra].
    + destruct (bisect_picks_positive (w2 :: ws) (p2 :: pop) w x)
        as (s & w' & Hnth & Hin & Hwpos).
      * simpl in Hlen. simpl. lia.
      * discriminate.
      * exact Hcmp.
      * lra.
      * exists s, w'.
        cbn [List.length Nat.sub] in Hnth. rewrite ?Nat.sub_0_r in Hnth.
        replace (List.length pop) with (List.length ws) by (simpl in Hlen; lia).
        cbn [nth_error]. rewrite Hnth.
        split; [reflexivity|]. split; [now right | exact Hwpos].
Qed.

Lemma combine_keys_values {V : Type} (d : dict MarketState V) :
  combine (keys d) (values d) = d.
Proof.
  unfold keys, values.
  induction d as [|[k v] d IH]; simpl; [reflexivity|].
  rewrite IH. reflexivity.
Qed.

Lemma In_dict_find {V : Type} (d : dict MarketState V) (k : MarketState) (v : V) :
  NoDup (keys d) -> In (k, v) d -> dict_find state_eqb k d = Some v.
Proof.
  induction d as [|[k0 v0] d IH]; simpl; [tauto|].
  intros Hnd [Heq|Hin].
  - injection Heq as -> ->. now rewrite state_eqb_refl.
  - inversion Hnd as [|? ? Hnotin Hnd']; subst.
    destruct (state_eqb k k0) eqn:E.
    + apply state_eqb_eq in E. subst k0. exfalso. apply Hnotin.
      change k with (fst (k, v)). now apply in_map.
    + auto.
Qed.

Lemma dict_find_res_map {V W : Type} (f : V -> res W)
    (t : dict MarketState V) (t' : dict MarketState W) (k : MarketState) (r' : W) :
  res_map (fun sp => (r <-- f (snd sp) ;; Val (fst sp, r))%res) t = Val t' ->
  dict_find state_eqb k t' = Some r' ->
  exists r, dict_find state_eqb k t = Some r /\ f r = Val r'.
Proof.
  revert t'. induction t as [|[k0 v0] t IH]; intros t' Hmap Hfind.
  - injection Hmap as <-. discriminate.
  - simpl in Hmap. destruct (f v0) as [w0|e] eqn:Ef; [|discriminate].
    simpl in Hmap.
    destruct (res_map _ t) as [ws|e] eqn:Et; [|discriminate].
    simpl in Hmap. injection Hmap as <-.
    simpl in Hfind. simpl.
    destruct (state_eqb k k0).
    + injection Hfind as <-. eauto.
    + eauto.
Qed.

Lemma same_row_find (a b : Row) (k : MarketState) (v : Q) :
  same_row a b -> dict_find state_eqb k a = Some v ->
  exists v', dict_find state_eqb k b = Some v' /\ v == v'.
Proof.
  induction 1 as [|[k1 v1] [k2 v2] a b [Hk Hv] _ IH]; simpl; [discriminate|].
  simpl in Hk, Hv. subst k2.
  destruct (state_eqb k k1).
  - intros [= <-]. eauto.
  - exact IH.
Qed.

Lemma boom_cannot_follow_down (active_ratio : Q) (adjusted : Matrix) (probs : Row) (w : Q) :
  adjust_for_participation BASE_MARKOV_TRANSITIONS active_ratio = Val adjusted ->
  getitem state_eqb adjusted down = Val probs ->
  dict_find state_eqb boom probs = Some w ->
  w == 0.
Proof.
  intros Hadj Hget Hfind.
  unfold getitem in Hget.
  destruct (dict_find state_eqb down adjusted) as [row|] eqn:Hrow; [|discriminate].
  injection Hget as ->.
  destruct (dict_find_res_map (fun r => adjust_row r active_ratio)
              BASE_MARKOV_TRANSITIONS adjusted down probs Hadj Hrow)
    as (base & Hbase & Hadjrow).
  cbn in Hbase. injection Hbase as <-.
  set (base := [(up, 0.3); (down, 0.4); (flat, 0.25); (crash, 0.05); (boom, 0.0)]) in *.
  assert (is_distribution base = true) as Hd by (vm_compute; reflexivity).
  destruct (Qlt_le_dec active_ratio 0.5) as [Hlo|Hhi].
  - destruct (adjust_row_low base active_ratio Hd Hlo)
      as (row & d & u & b & d' & u' & b' & Hr & _ & _ & Hnn & _ & _ & Hb & _ & _ & Hb' & _ & _ & Hle).
    rewrite Hadjrow in Hr. injection Hr as <-.
    rewrite Hfind in Hb'. injection Hb' as <-.
    cbn in Hb. injection Hb as <-.
    assert (0 <= w) as H0.
    { rewrite Forall_forall in Hnn. apply Hnn.
      eapply dict_find_In_values; eauto. }
    lra.
  - destruct (adjust_row_high base active_ratio Hd Hhi) as (row & Hr & Hsame & _).
    rewrite Hadjrow in Hr. injection Hr as <-.
    destruct (same_row_find probs base boom w Hsame Hfind) as (v' & Hv' & Heq).
    cbn in Hv'. injection Hv' as <-. rewrite Heq. reflexivity.
Qed.

Lemma NoDup_states : NoDup states.
Proof.
  unfold states.
  repeat (constructor; [simpl; intuition discriminate|]). constructor.
Qed.

(** X7. With at least one person and a market draw in [0, 1), the state
    [simulate_year] returns always has a strictly positive probability in
    the adjusted row of the current state: a transition of probability zero
    is never taken.  In particular a boom never follows a down year, at any
    participation. *)
Theorem next_state_has_positive_probability
    (persons : list Person) (current : MarketState) (index : Q) (g : rng) :
  persons <> [] ->
  0 <= tape g (cursor g) -> tape g (cursor g) < 1 ->
  exists persons' next_state g' adjusted probs w,
    simulate_year persons current index g = Val ((persons', next_state), g') /\
    adjust_for_participation BASE_MARKOV_TRANSITIONS
      (len (filter active persons) / len persons) = Val adjusted /\
    getitem state_eqb adjusted current = Val probs /\
    dict_find state_eqb next_state probs = Some w /\
    0 < w /\
    (current = down -> next_state <> boom).
Proof.
  intros Hne Hu0 Hu1. unfold simulate_year, bind, lift, py_div.
  rewrite (len_nonzero persons Hne).
  destruct (adjusted_base_rows (len (filter active persons) / len persons))
    as (adjusted & Hadj & Hrows).
  rewrite Hadj.
  destruct (Hrows current) as (probs & Hget & Hkeys & Hsum).
  rewrite Hget.
  destruct (choices_picks_positive (keys probs) (values probs) g)
    as (next_state & w & Hch & Hin & Hpos); try assumption.
  { rewrite Hkeys. discriminate. }
  { unfold keys, values. now rewrite !length_map. }
  { rewrite Hsum. reflexivity. }
  rewrite combine_keys_values in Hin.
  assert (dict_find state_eqb next_state probs = Some w) as Hfind.
  { apply In_dict_find; [rewrite Hkeys; exact NoDup_states | exact Hin]. }
  rewrite Hch.
  destruct (for_each_defined next_state index persons (advance g))
    as (persons' & g' & Hfe & _).
  rewrite Hfe.
  exists persons', next_state, g', adjusted, probs, w.
  repeat split; try assumption.
  intros -> ->.
  pose proof (boom_cannot_follow_down _ adjusted probs w Hadj Hget Hfind). lra.
Qed.

Lemma next_state_has_positive_probability_witness :
  generate_people [average] <> [] /\
  0 <= tape two_year_tape (cursor two_year_tape) /\
  tape two_year_tape (cursor two_year_tape) < 1 /\
  exists persons' next_state g' adjusted probs w,
    simulate_year (generate_people [average]) down 1 two_year_tape
      = Val ((persons', next_state), g') /\
    adjust_for_participation BASE_MARKOV_TRANSITIONS
      (len (filter active (generate_people [average]))
       / len (generate_people [average])) = Val adjusted /\
    getitem state_eqb adjusted down = Val probs /\
    dict_find state_eqb next_state probs = Some w /\
    0 < w /\
    (down = down -> next_state <> boom).
Proof.
  assert (generate_people [average] <> []) as Hne by discriminate.
  assert (0 <= tape two_year_tape (cursor two_year_tape)) as H0
    by (vm_compute; discriminate).
  assert (tape two_year_tape (cursor two_year_tape) < 1) as H1
    by (vm_compute; reflexivity).
  split; [exact Hne|]. split; [exact H0|]. split; [exact H1|].
  exact (next_state_has_positive_probability
           (generate_people [average]) down 1 two_year_tape Hne H0 H1).
Defined.

(** ** The schedule of intervals *)

Lemma run_years_add (a b : nat) (s : Sim) (g : rng) :
  run_years (a + b) s g
  = match run_years a s g with
    | Val (s1, g1) => run_years b s1 g1
    | Err e => Err e
    end.
Proof.
  revert s g. induction a as [|a IH]; intros s g; [reflexivity|].
  cbn [Nat.add run_years]. unfold bind.
  destruct (one_year s g) as [[s1 g1]|e]; [apply IH | reflexivity].
Qed.

Lemma main_loop_is_run_years (inputs : list Z) (s : Sim) (g : rng) :
  people s <> [] ->
  (0 <= year s)%Z ->
  match main_loop inputs s g with
  | Val (Finished s', g') =>
      run_years (Z.to_nat (20 - year s)) s g = Val (s', g')
  | _ => True
  end.
Proof.
  revert s g. induction inputs as [|interval inputs IH]; intros s g Hne Hy;
    cbn [main_loop]; destruct (year s <? 20)%Z eqn:E.
  - exact I.
  - apply Z.ltb_ge in E. replace (Z.to_nat (20 - year s)) with O by lia.
    reflexivity.
  - apply Z.ltb_lt in E.
    destruct (clamp_within (year s) interval (conj Hy E)) as (Hc & _).
    destruct (run_years_defined (Z.to_nat (clamp (year s) interval)) s g Hne)
      as (s1 & g1 & Hrun & Hne1 & Hy1 & _).
    unfold bind. rewrite Hrun.
    assert (0 <= year s1)%Z as Hy1' by lia.
    specialize (IH s1 g1 Hne1 Hy1').
    destruct (main_loop inputs s1 g1) as [[[s'|s'] g']|e]; try exact I.
    replace (Z.to_nat (20 - year s))
      with (Z.to_nat (clamp (year s) interval) + Z.to_nat (20 - year s1))%nat
      by lia.
    rewrite run_years_add, Hrun. exact IH.
  - apply Z.ltb_ge in E. replace (Z.to_nat (20 - year s)) with O by lia.
    reflexivity.
Qed.

(** X8. How the twenty years are cut into intervals does not change the
    simulation: whenever the loop ends, whatever was typed (including
    zeros, negative numbers and overshooting intervals), the people, both
    histories, the index and the generator are exactly those of twenty
    years simulated in one go. *)
Theorem schedule_does_not_change_the_run
    (persons : list Person) (inputs : list Z) (g : rng) :
  persons <> [] ->
  match main_loop inputs (initial persons) g with
  | Val (Finished s, g') => run_years 20 (initial persons) g = Val (s, g')
  | _ => True
  end.
Proof.
  intros Hne.
  apply (main_loop_is_run_years inputs (initial persons) g Hne).
  simpl. lia.
Qed.

Lemma schedule_does_not_change_the_run_witness :
  generate_people [average] <> [] /\
  match main_loop [7; 0; -2; 30]%Z (initial (generate_people [average])) two_year_tape with
  | Val (Finished s, g') =>
      run_years 20 (initial (generate_people [average])) two_year_tape = Val (s, g')
  | _ => True
  end.
Proof.
  assert (generate_people [average] <> []) as Hne by discriminate.
  split; [exact Hne|].
  exact (schedule_does_not_change_the_run
           (generate_people [average]) [7; 0; -2; 30]%Z two_year_tape Hne).
Defined.

(** The schedule of the witness does end. *)
Example seven_nothing_nothing_thirteen :
  exists s g',
    main_loop [7; 0; -2; 30]%Z (initial (generate_people [average])) two_year_tape
      = Val (Finished s, g') /\
    List.length (market_history s) = 20%nat.
Proof. do 2 eexists. split; [vm_compute; reflexivity | reflexivity]. Qed.

(** X9. Before the horizon, an interval of zero or below simulates nothing:
    no year is recorded, nobody decides, no draw is read, and the loop goes
    on with the next input. *)
Theorem non_positive_interval_simulates_nothing
    (interval : Z) (inputs : list Z) (s : Sim) (g : rng) :
  (year s < 20)%Z ->
  (interval <= 0)%Z ->
  run_years (Z.to_nat (clamp (year s) interval)) s g = Val (s, g) /\
  main_loop (interval :: inputs) s g = main_loop inputs s g.
Proof.
  intros Hy Hi.
  assert (clamp (year s) interval = interval) as Hc.
  { unfold clamp. destruct (Z.gtb_spec (year s + interval) 20); [lia | reflexivity]. }
  assert (Z.to_nat interval = O) as H0 by lia.
  rewrite Hc, H0. split; [reflexivity|].
  cbn [main_loop]. apply Z.ltb_lt in Hy. rewrite Hy, Hc, H0. reflexivity.
Qed.

Lemma non_positive_interval_simulates_nothing_witness :
  (year (initial (generate_people [average])) < 20)%Z /\
  (-3 <= 0)%Z /\
  run_years (Z.to_nat (clamp (year (initial (generate_people [average]))) (-3)))
            (initial (generate_people [average])) two_year_tape
    = Val (initial (generate_people [average]), two_year_tape) /\
  main_loop (-3 :: [20])%Z (initial (generate_people [average])) two_year_tape
    = main_loop [20]%Z (initial (generate_people [average])) two_year_tape.
Proof.
  assert (year (initial (generate_people [average])) < 20)%Z as Hy by reflexivity.
  assert (-3 <= 0)%Z as Hi by lia.
  split; [exact Hy|]. split; [exact Hi|].
  exact (non_positive_interval_simulates_nothing
           (-3)%Z [20]%Z (initial (generate_people [average])) two_year_tape Hy Hi).
Defined.

(** ** [adjust_for_participation] on arbitrary dictionaries *)

Lemma normalise_cases (total : Q) (d : Row) :
  res_map (fun kv => (q <-- py_div (snd kv) total ;; Val (fst kv, q))%res) d
  = if Qeq_bool total 0
    then match d with [] => Val [] | _ :: _ => Err ZeroDivisionError end
    else Val (divide_all total d).
Proof.
  destruct (Qeq_bool total 0) eqn:E.
  - destruct d as [|[k v] d]; [reflexivity|].
    simpl. unfold py_div. rewrite E. reflexivity.
  - apply normalise_ok. intros H. apply Qeq_bool_iff in H. congruence.
Qed.

Lemma adjust_row_high_any (probs : Row) (active_ratio : Q) :
  0.5 <= active_ratio ->
  adjust_row probs active_ratio
  = if Qeq_bool (py_sum (values probs)) 0
    then match probs with [] => Val [] | _ :: _ => Err ZeroDivisionError end
    else Val (divide_all (py_sum (values probs)) probs).
Proof.
  intros Hr. unfold adjust_row. apply Qltb_ge in Hr. rewrite Hr.
  cbn [res_bind]. apply normalise_cases.
Qed.

Section NormalisingInBinary64.
Import PrimFloat.
#[local] Set Warnings "-inexact-float".

(** X10. At a participation ratio that is not below 0.5 the function
    still normalises, in binary64: for any dictionary of rows, with any
    keys and any numbers, it returns every row divided entry by entry by
    the row's own total; no key is looked up, and the only error is the
    division by zero, raised exactly when a row that is not empty has a
    total that compares equal to zero. *)
Theorem high_ratio_only_normalises
    (transitions : Float64.Matrix) (active_ratio : float) :
  ltb active_ratio 0.5 = false ->
  match Float64.adjust_for_participation transitions active_ratio with
  | Val adjusted =>
      adjusted
      = map (fun sp =>
               (fst sp,
                Float64.divide_all (Float64.py_sum (values (snd sp))) (snd sp)))
            transitions /\
      Forall (fun sp => snd sp = [] \/
                        eqb (Float64.py_sum (values (snd sp))) 0 = false)
             transitions
  | Err e =>
      e = ZeroDivisionError /\
      Exists (fun sp => snd sp <> [] /\
                        eqb (Float64.py_sum (values (snd sp))) 0 = true)
             transitions
  end.
Proof.
  intros Hr. unfold Float64.adjust_for_participation.
  induction transitions as [|[k probs] t IH]; [split; [reflexivity | constructor]|].
  cbn [res_map res_bind fst snd].
  rewrite (Float64Facts.adjust_row_at_high_ratio probs active_ratio Hr).
  destruct (eqb (Float64.py_sum (values probs)) 0) eqn:E.
  - destruct probs as [|kv probs].
    + cbn [res_bind].
      destruct (res_map _ t) as [adjusted|e]; cbn [res_bind].
      * destruct IH as [-> Hall]. split; [reflexivity|].
        constructor; [now left | exact Hall].
      * destruct IH as [-> Hex]. split; [reflexivity|]. now apply Exists_cons_tl.
    + cbn [res_bind]. split; [reflexivity|]. apply Exists_cons_hd.
      split; [discriminate | exact E].
  - cbn [res_bind].
    destruct (res_map _ t) as [adjusted|e]; cbn [res_bind].
    + destruct IH as [-> Hall]. split; [reflexivity|].
      constructor; [|exact Hall]. right. exact E.
    + destruct IH as [-> Hex]. split; [reflexivity|]. now apply Exists_cons_tl.
Qed.

Lemma high_ratio_only_normalises_witness :
  ltb 1 0.5 = false /\
  match Float64.adjust_for_participation
          [(up, [(up, 1); (flat, 1)]); (flat, [])]%float 1 with
  | Val adjusted =>
      adjusted
      = map (fun sp =>
               (fst sp,
                Float64.divide_all (Float64.py_sum (values (snd sp))) (snd sp)))
            [(up, [(up, 1); (flat, 1)]); (flat, [])]%float /\
      Forall (fun sp => snd sp = [] \/
                        eqb (Float64.py_sum (values (snd sp))) 0 = false)
             [(up, [(up, 1); (flat, 1)]); (flat, [])]%float
  | Err e =>
      e = ZeroDivisionError /\
      Exists (fun sp => snd sp <> [] /\
                        eqb (Float64.py_sum (values (snd sp))) 0 = true)
             [(up, [(up, 1); (flat, 1)]); (flat, [])]%float
  end.
Proof.
  assert (ltb 1 0.5 = false) as Hr by reflexivity.
  split; [exact Hr|].
  exact (high_ratio_only_normalises
           [(up, [(up, 1); (flat, 1)]); (flat, [])]%float 1 Hr).
Defined.

(** A row that adds up to 2 comes back halved; a row whose total
    overflows comes back as zeros; and a row whose numbers cancel in
    binary64 raises the error although they do not cancel exactly. *)
Example rows_divided_by_their_totals :
  Float64.adjust_for_participation [(up, [(up, 1); (flat, 1)])]%float 1
  = Val [(up, [(up, 0.5); (flat, 0.5)])]%float /\
  Float64.adjust_for_participation [(up, [(up, 1e308); (flat, 1e308)])]%float 1
  = Val [(up, [(up, 0); (flat, 0)])]%float /\
  Float64.adjust_for_participation
    [(up, [(up, 1e16); (flat, 1); (down, -1e16)])]%float 1
  = Err ZeroDivisionError.
Proof.
  split; [vm_compute; reflexivity|].
  split; vm_compute; reflexivity.
Qed.

End NormalisingInBinary64.

(** A row that sums to 2 comes back halved. *)
Example row_summing_to_two_is_halved :
  exists row,
    adjust_for_participation [(up, [(up, 1); (flat, 1)])] 1 = Val [(up, row)] /\
    same_row row [(up, 0.5); (flat, 0.5)].
Proof.
  eexists. split; [vm_compute; reflexivity|].
  repeat constructor.
Qed.

Lemma normalise_never_KeyError (total : Q) (d : Row) :
  res_map (fun kv => (q <-- py_div (snd kv) total ;; Val (fst kv, q))%res) d
  <> Err KeyError.
Proof.
  rewrite normalise_cases.
  destruct (Qeq_bool total 0); [destruct d|]; discriminate.
Qed.

(** X11. Below a ratio of 0.5 the body of the loop reads the entries
    ["down"], ["up"] and ["boom"] of the row: it raises a [KeyError]
    exactly when the row lacks one of the three, whatever else the row
    holds; and when the row has the three, the only error it can raise is
    the [ZeroDivisionError] of the normalising loop. *)
Theorem low_ratio_needs_three_keys (probs : Row) (active_ratio : Q) :
  active_ratio < 0.5 ->
  (adjust_row probs active_ratio = Err KeyError
   <-> has_key probs down && has_key probs up && has_key probs boom = false) /\
  (has_key probs down && has_key probs up && has_key probs boom = true ->
   forall e, adjust_row probs active_ratio = Err e -> e = ZeroDivisionError).
Proof.
  intros Hr. apply Qltb_lt in Hr. unfold adjust_row, has_key, getitem.
  rewrite Hr.
  destruct (dict_find state_eqb down probs) as [d|] eqn:Hd;
    [|split; [split; reflexivity | discriminate]].
  cbn [res_bind]. unfold getitem. rewrite dict_find_setitem. cbn [state_eqb].
  destruct (dict_find state_eqb up probs) as [u|] eqn:Hu;
    [|split; [split; reflexivity | discriminate]].
  cbn [res_bind]. unfold getitem. rewrite !dict_find_setitem. cbn [state_eqb].
  destruct (dict_find state_eqb boom probs) as [b|] eqn:Hb;
    [|split; [split; reflexivity | discriminate]].
  cbn [res_bind andb]. split.
  - split; [|discriminate].
    intros H. exfalso. exact (normalise_never_KeyError _ _ H).
  - intros _ e. rewrite normalise_cases.
    destruct (Qeq_bool _ 0); [|discriminate].
    destruct (setitem state_eqb _ boom _); [discriminate|].
    intros [= <-]. reflexivity.
Qed.

Lemma low_ratio_needs_three_keys_witness :
  0.2 < 0.5 /\
  (adjust_row [(up, 0.5); (down, 0.5)] 0.2 = Err KeyError
   <-> has_key [(up, 0.5); (down, 0.5)] down
       && has_key [(up, 0.5); (down, 0.5)] up
       && has_key [(up, 0.5); (down, 0.5)] boom = false) /\
  (has_key [(up, 0.5); (down, 0.5)] down
   && has_key [(up, 0.5); (down, 0.5)] up
   && has_key [(up, 0.5); (down, 0.5)] boom = true ->
   forall e, adjust_row [(up, 0.5); (down, 0.5)] 0.2 = Err e ->
             e = ZeroDivisionError).
Proof.
  assert (0.2 < 0.5) as Hr by lra.
  split; [exact Hr|].
  exact (low_ratio_needs_three_keys [(up, 0.5); (down, 0.5)] 0.2 Hr).
Defined.

(** With the three keys there and a total of zero the division is the
    error: the row -0.05, 0.03, 0.01 holds 0, 0 and 0 once adjusted. *)
Example low_ratio_division_by_zero :
  adjust_row [(down, -0.05); (up, 0.03); (boom, 0.01)] 0.2 = Err ZeroDivisionError.
Proof. vm_compute. reflexivity. Qed.

(** ** The adjusted matrix as an input *)

Lemma dict_find_Some_key {V : Type} (d : dict MarketState V) (k : MarketState) (v : V) :
  dict_find state_eqb k d = Some v -> In k (keys d).
Proof.
  induction d as [|[k0 v0] d IH]; simpl; [discriminate|].
  destruct (state_eqb k k0) eqn:E; intros H.
  - left. apply state_eqb_eq in E. congruence.
  - right. auto.
Qed.

Lemma key_dict_find {V : Type} (d : dict MarketState V) (k : MarketState) :
  In k (keys d) -> exists v, dict_find state_eqb k d = Some v.
Proof.
  induction d as [|[k0 v0] d IH]; simpl; [tauto|].
  destruct (state_eqb k k0) eqn:E; [eauto|].
  intros [Heq|Hin]; [|auto].
  subst k0. rewrite state_eqb_refl in E. discriminate.
Qed.

Lemma adjust_row_keeps_distribution (probs : Row) (active_ratio : Q) :
  is_distribution probs = true ->
  exists row,
    adjust_row probs active_ratio = Val row /\
    keys row = keys probs /\
    is_distribution row = true.
Proof.
  intros Hd.
  destruct (adjust_row_sums_to_one probs active_ratio Hd)
    as (row & Hrow & Hk & Hs & Hnn).
  exists row. split; [exact Hrow|]. split; [exact Hk|].
  apply is_distribution_spec in Hd. destruct Hd as (Hkeys & _ & _).
  unfold is_distribution. rewrite !andb_true_iff. repeat split.
  - apply forallb_forall. intros s _. unfold has_key.
    destruct (Hkeys s) as [v Hv]. apply dict_find_Some_key in Hv.
    rewrite <- Hk in Hv. destruct (key_dict_find row s Hv) as [v' ->].
    reflexivity.
  - apply forallb_forall. intros x Hx. apply Qle_bool_iff.
    rewrite Forall_forall in Hnn. auto.
  - apply Qeq_bool_iff. exact Hs.
Qed.

(** X12. The adjustment keeps its own precondition: from a matrix whose
    rows are distributions it returns, at any participation ratio, a matrix
    over the same source states whose rows are again distributions (an
    entry per state, none negative, sum 1), so its output can be adjusted
    again. *)
Theorem adjustment_returns_a_transition_matrix
    (transitions : Matrix) (active_ratio : Q) :
  is_transition_matrix transitions = true ->
  exists adjusted,
    adjust_for_participation transitions active_ratio = Val adjusted /\
    keys adjusted = keys transitions /\
    is_transition_matrix adjusted = true.
Proof.
  intros Ht.
  destruct (res_map_Forall2
              (fun sp => (r <-- adjust_row (snd sp) active_ratio ;; Val (fst sp, r))%res)
              (fun y x => fst y = fst x /\ is_distribution (snd y) = true)
              transitions) as (adjusted & Hadj & Hall).
  { intros [s probs] Hin.
    destruct (adjust_row_keeps_distribution probs active_ratio)
      as (row & Hrow & _ & Hd);
      [exact (rows_are_distributions _ _ Ht Hin)|].
    exists (s, row). simpl. rewrite Hrow. simpl. auto. }
  exists adjusted. split; [exact Hadj|]. split.
  - exact (Forall2_keys (fun (r : Row) (_ : Row) => is_distribution r = true)
             adjusted transitions Hall).
  - unfold is_transition_matrix. clear Hadj Ht.
    induction Hall as [|y x ys xs [_ Hd] _ IH]; [reflexivity|].
    simpl. rewrite Hd, IH. reflexivity.
Qed.

Lemma adjustment_returns_a_transition_matrix_witness :
  is_transition_matrix BASE_MARKOV_TRANSITIONS = true /\
  exists adjusted,
    adjust_for_participation BASE_MARKOV_TRANSITIONS 0.3 = Val adjusted /\
    keys adjusted = keys BASE_MARKOV_TRANSITIONS /\
    is_transition_matrix adjusted = true.
Proof.
  assert (is_transition_matrix BASE_MARKOV_TRANSITIONS = true) as Ht
    by (vm_compute; reflexivity).
  split; [exact Ht|].
  exact (adjustment_returns_a_transition_matrix BASE_MARKOV_TRANSITIONS 0.3 Ht).
Defined.




(** ** Rounding and the statistics of the reports *)

Lemma round_half_even_of_integer (q : Q) (z : Z) :
  q == inject_Z z -> round_half_even q = z.
Proof.
  intros Hq. unfold round_half_even.
  assert (Qfloor q = z) as Hf by (rewrite Hq; apply Qfloor_Z).
  rewrite Hf.
  assert (Qltb (q - inject_Z z) (1 # 2) = true) as Hlt
    by (apply Qltb_lt; rewrite Hq; lra).
  rewrite Hlt. reflexivity.
Qed.

Lemma round2_of_hundredths (z : Z) : round2 (z # 100) = z # 100.
Proof.
  unfold round2. f_equal. apply round_half_even_of_integer.
  unfold Qeq. simpl. lia.
Qed.

(** Rounding to two decimals a number that was already rounded changes
    nothing, so the second [round] that [generate_report] applies to the
    minimum, the maximum and the mode of the rounded values is without
    effect. *)
Lemma round2_idempotent (x : Q) : round2 (round2 x) = round2 x.
Proof.
  unfold round2 at 2 3. apply round2_of_hundredths.
Qed.

Lemma round_half_even_monotone (x y : Q) :
  x <= y -> (round_half_even x <= round_half_even y)%Z.
Proof.
  intros Hxy.
  pose proof (Qfloor_resp_le x y Hxy) as Hf.
  pose proof (Qfloor_le x) as Hx1. pose proof (Qlt_floor x) as Hx2.
  pose proof (Qfloor_le y) as Hy1. pose proof (Qlt_floor y) as Hy2.
  unfold round_half_even.
  set (fx := Qfloor x) in *. set (fy := Qfloor y) in *.
  rewrite inject_Z_plus in Hx2, Hy2.
  assert (inject_Z fx <= inject_Z fy) as Hfq by (rewrite <- Zle_Qle; exact Hf).
  destruct (Z.eq_dec fx fy) as [Heq|Hne].
  - rewrite <- Heq in *.
    case_Qltb (x - inject_Z fx) (1 # 2);
      case_Qltb (y - inject_Z fx) (1 # 2);
      try case_Qltb (1 # 2) (x - inject_Z fx);
      try case_Qltb (1 # 2) (y - inject_Z fx);
      try destruct (Z.even fx); try lia; exfalso; lra.
  - assert (fx + 1 <= fy)%Z as Hlt by lia.
    case_Qltb (x - inject_Z fx) (1 # 2);
      case_Qltb (y - inject_Z fy) (1 # 2);
      try case_Qltb (1 # 2) (x - inject_Z fx);
      try case_Qltb (1 # 2) (y - inject_Z fy);
      try destruct (Z.even fx); try destruct (Z.even fy); lia.
Qed.

Lemma round2_monotone (x y : Q) : x <= y -> round2 x <= round2 y.
Proof.
  intros Hxy. unfold round2.
  assert (x * 100 <= y * 100) as H by lra.
  pose proof (round_half_even_monotone _ _ H) as Hz.
  unfold Qle. simpl. lia.
Qed.

Lemma py_min_list_spec (x : Q) (xs : list Q) :
  let m := fold_left (fun m y => if Qltb y m then y else m) xs x in
  In m (x :: xs) /\ forall y, In y (x :: xs) -> m <= y.
Proof.
  revert x. induction xs as [|z xs IH]; intros x; simpl.
  - split; [now left|]. intros y [<-|[]]. lra.
  - destruct (IH (if Qltb z x then z else x)) as [Hin Hle]. simpl in Hin, Hle.
    split.
    + destruct Hin as [Heq|Hin]; [|now right; right].
      rewrite <- Heq. destruct (Qltb z x); [right; now left | now left].
    + intros y Hy.
      case_Qltb z x.
      * destruct Hy as [<-|[<-|Hy]].
        -- pose proof (Hle z (or_introl eq_refl)). lra.
        -- apply Hle. now left.
        -- apply Hle. now right.
      * destruct Hy as [<-|[<-|Hy]].
        -- apply Hle. now left.
        -- pose proof (Hle x (or_introl eq_refl)). lra.
        -- apply Hle. now right.
Qed.

Lemma py_max_list_spec (x : Q) (xs : list Q) :
  let m := fold_left (fun m y => if Qltb m y then y else m) xs x in
  In m (x :: xs) /\ forall y, In y (x :: xs) -> y <= m.
Proof.
  revert x. induction xs as [|z xs IH]; intros x; simpl.
  - split; [now left|]. intros y [<-|[]]. lra.
  - destruct (IH (if Qltb x z then z else x)) as [Hin Hle]. simpl in Hin, Hle.
    split.
    + destruct Hin as [Heq|Hin]; [|now right; right].
      rewrite <- Heq. destruct (Qltb x z); [right; now left | now left].
    + intros y Hy.
      case_Qltb x z.
      * destruct Hy as [<-|[<-|Hy]].
        -- pose proof (Hle z (or_introl eq_refl)). lra.
        -- apply Hle. now left.
        -- apply Hle. now right.
      * destruct Hy as [<-|[<-|Hy]].
        -- apply Hle. now left.
        -- pose proof (Hle x (or_introl eq_refl)). lra.
        -- apply Hle. now right.
Qed.

Lemma In_insert_sorted (x y : Q) (l : list Q) :
  In x (insert_sorted y l) -> x = y \/ In x l.
Proof.
  induction l as [|z l IH]; simpl.
  - intros [<-|[]]. now left.
  - destruct (Qltb y z); simpl.
    + intros [<-|H]; [now left | now right].
    + intros [<-|H]; [right; now left|].
      destruct (IH H) as [->|Hin]; [now left | right; now right].
Qed.

Lemma In_sorted (x : Q) (xs : list Q) : In x (sorted xs) -> In x xs.
Proof.
  unfold sorted.
  assert (forall acc,
             In x (fold_left (fun acc y => insert_sorted y acc) xs acc) ->
             In x xs \/ In x acc) as H.
  { induction xs as [|y xs IH]; intros acc; simpl; [now right|].
    intros Hin. destruct (IH _ Hin) as [Hxs|Hacc]; [left; now right|].
    destruct (In_insert_sorted _ _ _ Hacc) as [->|Hacc']; [left; now left | now right]. }
  intros Hin. destruct (H [] Hin) as [Hxs|[]]. exact Hxs.
Qed.

Lemma statistics_median_between (data : list Q) (lo hi median : Q) :
  (forall v, In v data -> lo <= v /\ v <= hi) ->
  statistics_median data = Val median ->
  lo <= median /\ median <= hi.
Proof.
  intros Hb. unfold statistics_median.
  destruct (Nat.eqb (List.length (sorted data)) 0); [discriminate|].
  destruct (Nat.eqb (List.length (sorted data) mod 2) 1).
  - destruct (nth_error (sorted data) _) as [x|] eqn:E; [|discriminate].
    intros [= <-]. apply Hb, In_sorted. eapply nth_error_In; eauto.
  - destruct (nth_error (sorted data) (_ - 1)) as [a|] eqn:Ea; [|discriminate].
    destruct (nth_error (sorted data) _) as [b|] eqn:Eb in |- *; [|discriminate].
    intros [= <-].
    assert (lo <= a /\ a <= hi) as [Ha1 Ha2]
      by (apply Hb, In_sorted; eapply nth_error_In; eauto).
    assert (lo <= b /\ b <= hi) as [Hb1 Hb2]
      by (apply Hb, In_sorted; eapply nth_error_In; eauto).
    split; [apply Qle_shift_div_l | apply Qle_shift_div_r]; lra.
Qed.

Lemma len_cons {A : Type} (x : A) (xs : list A) : len (x :: xs) == 1 + len xs.
Proof.
  unfold len. cbn [List.length]. rewrite Nat2Z.inj_succ, <- Z.add_1_l.
  rewrite inject_Z_plus. reflexivity.
Qed.

Lemma len_nonneg {A : Type} (xs : list A) : 0 <= len xs.
Proof.
  unfold len. change 0 with (inject_Z 0). rewrite <- Zle_Qle. lia.
Qed.

Lemma py_sum_between (xs : list Q) (lo hi : Q) :
  (forall v, In v xs -> lo <= v /\ v <= hi) ->
  lo * len xs <= py_sum xs /\ py_sum xs <= hi * len xs.
Proof.
  induction xs as [|x xs IH]; intros Hb.
  - rewrite py_sum_nil. change (len (@nil Q)) with 0. split; lra.
  - destruct (Hb x (or_introl eq_refl)) as [Hx1 Hx2].
    destruct IH as [IH1 IH2]; [intros v Hv; apply Hb; now right|].
    rewrite py_sum_cons, len_cons. split; lra.
Qed.

Lemma statistics_mean_between (data : list Q) (lo hi mean : Q) :
  (forall v, In v data -> lo <= v /\ v <= hi) ->
  statistics_mean data = Val mean ->
  lo <= mean /\ mean <= hi.
Proof.
  intros Hb. destruct data as [|x xs]; [discriminate|].
  unfold statistics_mean. intros [= <-].
  destruct (py_sum_between (x :: xs) lo hi Hb) as [H1 H2].
  assert (0 < len (x :: xs)) as Hpos.
  { rewrite len_cons. pose proof (len_nonneg xs). lra. }
  split; [apply Qle_shift_div_l | apply Qle_shift_div_r]; try exact Hpos; lra.
Qed.

Lemma keys_setitem_Q (c : dict Q nat) (e k : Q) (v : nat) :
  In k (keys (setitem Qeq_bool c e v)) -> k = e \/ In k (keys c).
Proof.
  induction c as [|[k0 v0] c IH]; simpl.
  - intros [<-|[]]. now left.
  - destruct (Qeq_bool e k0); simpl.
    + intros [<-|H]; right; [now left | now right].
    + intros [<-|H]; [right; now left|].
      destruct (IH H) as [->|Hin]; [now left | right; now right].
Qed.

Lemma Counter_keys (data : list Q) (k : Q) :
  In k (keys (Counter data)) -> In k data.
Proof.
  unfold Counter.
  assert (forall c,
             In k (keys (fold_left
                           (fun c elem =>
                              setitem Qeq_bool c elem
                                      (dict_get Qeq_bool elem O c + 1)%nat)
                           data c)) ->
             In k data \/ In k (keys c)) as H.
  { induction data as [|x xs IH]; intros c; simpl; [now right|].
    intros Hin. destruct (IH _ Hin) as [Hxs|Hc]; [left; now right|].
    destruct (keys_setitem_Q _ _ _ _ Hc) as [->|Hc']; [left; now left | now right]. }
  intros Hin. destruct (H [] Hin) as [Hd|[]]. exact Hd.
Qed.

Lemma most_common_1_In (c : dict Q nat) (top : Q * nat) (rest : list (Q * nat)) :
  most_common_1 c = top :: rest -> In top c.
Proof.
  destruct c as [|kv c]; [discriminate|].
  unfold most_common_1. intros [= <- _].
  assert (forall best,
             In (fold_left
                   (fun best kv' => if Nat.ltb (snd best) (snd kv') then kv' else best)
                   c best) (best :: c)) as H.
  { induction c as [|kv' c IH]; intros best; simpl; [now left|].
    destruct (IH (if Nat.ltb (snd best) (snd kv') then kv' else best)) as [Heq|Hin].
    - rewrite <- Heq. destruct (Nat.ltb _ _); [right; now left | now left].
    - right. now right. }
  apply H.
Qed.

Lemma statistics_mode_In (data : list Q) (m : Q) :
  statistics_mode data = Val m -> In m data.
Proof.
  unfold statistics_mode.
  destruct (most_common_1 (Counter data)) as [|top rest] eqn:E; [discriminate|].
  intros [= <-]. apply Counter_keys.
  apply most_common_1_In in E. unfold keys. now apply in_map.
Qed.

Lemma report_shape (p : Person) (ps : list Person) (name : String.string) :
  let values := map (fun q => round2 (value q)) (p :: ps) in
  exists mean median mn mx m,
    generate_report (p :: ps)
      = Val (ReportDict {| r_mean := round2 mean; r_median := round2 median;
                           r_min := mn; r_max := mx; r_mode := ModeValue m |}) /\
    stats_report (p :: ps) name
      = Val [Header name (List.length (p :: ps));
             MeanLine (round2 mean); MedianLine (round2 median);
             ModeLine (ModeValue m); MinLine mn; MaxLine mx] /\
    In mn values /\ In mx values /\ In m values /\
    (forall v, In v values -> mn <= v /\ v <= mx) /\
    (mn <= mean /\ mean <= mx) /\
    (mn <= median /\ median <= mx).
Proof.
  intros values.
  assert (values <> []) as Hne by discriminate.
  assert (forall v, In v values -> round2 v = v) as Hround.
  { intros v Hv. unfold values in Hv. apply in_map_iff in Hv.
    destruct Hv as (q & <- & _). apply round2_idempotent. }
  destruct (statistics_median_defined values Hne) as [median Hmed].
  destruct (mode_never_sentinel values Hne) as (m & Hm & Hmode).
  pose proof (statistics_mode_In values m Hm) as Hmin.
  rewrite (Hround m Hmin) in Hmode.
  pose (x := round2 (value p)). pose (xs := map (fun q => round2 (value q)) ps).
  destruct (py_min_list_spec x xs) as [Hmn1 Hmn2].
  destruct (py_max_list_spec x xs) as [Hmx1 Hmx2].
  set (mn := fold_left (fun m y => if Qltb y m then y else m) xs x) in *.
  set (mx := fold_left (fun m y => if Qltb m y then y else m) xs x) in *.
  assert (forall v, In v values -> mn <= v /\ v <= mx) as Hb
    by (intros v Hv; split; [apply Hmn2 | apply Hmx2]; exact Hv).
  assert (statistics_mean values = Val (py_sum values / len values)) as Hmean
    by reflexivity.
  exists (py_sum values / len values), median, mn, mx, m.
  split; [|split].
  - unfold generate_report. fold values. rewrite Hmed, Hmode.
    change (py_min_list values) with (Val mn).
    change (py_max_list values) with (Val mx).
    unfold values at 1. cbn [map res_bind statistics_mean].
    rewrite (Hround mn Hmn1), (Hround mx Hmx1). reflexivity.
  - unfold stats_report. fold values. rewrite Hmed, Hmode.
    change (py_min_list values) with (Val mn).
    change (py_max_list values) with (Val mx).
    assert (List.length values = List.length (p :: ps)) as Hlen
      by (unfold values; apply length_map).
    rewrite Hlen.
    unfold values at 1. cbn [map res_bind statistics_mean]. reflexivity.
  - split; [exact Hmn1|]. split; [exact Hmx1|]. split; [exact Hmin|].
    split; [exact Hb|]. split.
    + exact (statistics_mean_between values mn mx _ Hb Hmean).
    + exact (statistics_median_between values mn mx median Hb Hmed).
Qed.

(** X14. The two reports agree: for a group that is not empty
    [stats_report] prints, after its header with the size of the group, the
    very mean, median, mode, minimum and maximum that [generate_report]
    stores (the extra rounding of the minimum and the maximum in
    [generate_report] is without effect); for an empty group one returns
    "No data." and the other prints that there is no data; neither ever
    raises. *)
Theorem reports_agree (group : list Person) (name : String.string) :
  match generate_report group, stats_report group name with
  | Val NoData, Val lines =>
      group = [] /\ lines = [Header name 0; NoDataLine]
  | Val (ReportDict r), Val lines =>
      group <> [] /\
      lines = [Header name (List.length group);
               MeanLine (r_mean r); MedianLine (r_median r);
               ModeLine (r_mode r); MinLine (r_min r); MaxLine (r_max r)]
  | _, _ => False
  end.
Proof.
  destruct group as [|p ps]; [split; reflexivity|].
  destruct (report_shape p ps name)
    as (mean & median & mn & mx & m & Hgen & Hstats & _).
  rewrite Hgen, Hstats. split; [discriminate | reflexivity].
Qed.

(** X15. In the report of a group that is not empty the minimum, the
    maximum and the mode are each the rounded value of some person of the
    group, and every person's rounded value lies between the minimum and
    the maximum; [generate_report] returns "No data." only for the empty
    group. *)
Theorem report_statistics_come_from_the_group (group : list Person) :
  match generate_report group with
  | Val NoData => group = []
  | Val (ReportDict r) =>
      (exists q, In q group /\ r_min r = round2 (value q)) /\
      (exists q, In q group /\ r_max r = round2 (value q)) /\
      (exists q, In q group /\ r_mode r = ModeValue (round2 (value q))) /\
      (forall q, In q group ->
                 r_min r <= round2 (value q) /\ round2 (value q) <= r_max r)
  | Err _ => False
  end.
Proof.
  destruct group as [|p ps]; [reflexivity|].
  destruct (report_shape p ps EmptyString)
    as (mean & median & mn & mx & m & Hgen & _ & Hmn & Hmx & Hm & Hb & _).
  rewrite Hgen. cbn [r_min r_max r_mode].
  apply in_map_iff in Hmn. destruct Hmn as (q1 & <- & Hq1).
  apply in_map_iff in Hmx. destruct Hmx as (q2 & <- & Hq2).
  apply in_map_iff in Hm. destruct Hm as (q3 & <- & Hq3).
  split; [eauto|]. split; [eauto|]. split; [eauto|].
  intros q Hq. apply Hb.
  exact (in_map (fun q0 => round2 (value q0)) (p :: ps) q Hq).
Qed.

(** X16. In the report of a group that is not empty the rounded mean and
    the rounded median both lie between the minimum and the maximum. *)
Theorem report_is_ordered (group : list Person) :
  match generate_report group with
  | Val NoData => group = []
  | Val (ReportDict r) =>
      r_min r <= r_mean r /\ r_mean r <= r_max r /\
      r_min r <= r_median r /\ r_median r <= r_max r
  | Err _ => False
  end.
Proof.
  destruct group as [|p ps]; [reflexivity|].
  destruct (report_shape p ps EmptyString)
    as (mean & median & mn & mx & m & Hgen & _ & Hmn & Hmx & _ & _
        & [Hmean1 Hmean2] & [Hmed1 Hmed2]).
  rewrite Hgen. cbn [r_min r_max r_mean r_median].
  assert (round2 mn = mn) as Emn.
  { apply in_map_iff in Hmn. destruct Hmn as (q & <- & _). apply round2_idempotent. }
  assert (round2 mx = mx) as Emx.
  { apply in_map_iff in Hmx. destruct Hmx as (q & <- & _). apply round2_idempotent. }
  rewrite <- Emn at 1 2. rewrite <- Emx at 1 2.
  repeat split; apply round2_monotone; assumption.
Qed.

(** ** The mode *)

Lemma Qeq_bool_sym (a b : Q) : Qeq_bool a b = Qeq_bool b a.
Proof.
  destruct (Qeq_bool a b) eqn:E1, (Qeq_bool b a) eqn:E2; try reflexivity.
  - apply Qeq_bool_iff in E1. symmetry in E1. apply Qeq_bool_iff in E1. congruence.
  - apply Qeq_bool_iff in E2. symmetry in E2. apply Qeq_bool_iff in E2. congruence.
Qed.

Lemma Qeq_bool_trans_eq (a b c : Q) :
  Qeq_bool a b = true -> Qeq_bool c a = Qeq_bool c b.
Proof.
  intros Hab. apply Qeq_bool_iff in Hab.
  destruct (Qeq_bool c a) eqn:E1, (Qeq_bool c b) eqn:E2; try reflexivity.
  - apply Qeq_bool_iff in E1. rewrite Hab in E1. apply Qeq_bool_iff in E1. congruence.
  - apply Qeq_bool_iff in E2. rewrite <- Hab in E2. apply Qeq_bool_iff in E2. congruence.
Qed.

Lemma dict_find_setitem_Q (c : dict Q nat) (e k : Q) (v : nat) :
  dict_find Qeq_bool k (setitem Qeq_bool c e v)
  = if Qeq_bool k e then Some v else dict_find Qeq_bool k c.
Proof.
  induction c as [|[k0 v0] c IH]; simpl; [reflexivity|].
  destruct (Qeq_bool e k0) eqn:E; simpl.
  - rewrite (Qeq_bool_trans_eq e k0 k E).
    destruct (Qeq_bool k k0); reflexivity.
  - rewrite IH. destruct (Qeq_bool k k0) eqn:Ek; [|reflexivity].
    destruct (Qeq_bool k e) eqn:Eke; [|reflexivity].
    rewrite (Qeq_bool_sym k e) in Eke.
    rewrite (Qeq_bool_trans_eq k k0 e Ek) in Eke. congruence.
Qed.

Lemma In_setitem_Q (c : dict Q nat) (e k : Q) (v n : nat) :
  In (k, n) (setitem Qeq_bool c e v) ->
  In (k, n) c \/ (n = v /\ Qeq_bool e k = true).
Proof.
  induction c as [|[k0 v0] c IH]; simpl.
  - intros [[= <- <-]|[]]. right. split; [reflexivity|].
    apply Qeq_bool_iff. reflexivity.
  - destruct (Qeq_bool e k0) eqn:E; simpl.
    + intros [[= <- <-]|H]; [right; auto | left; now right].
    + intros [H|H]; [left; now left|].
      destruct (IH H) as [Hin|Hnew]; [left; now right | now right].
Qed.

Lemma dict_find_In_Q (c : dict Q nat) (k : Q) (n : nat) :
  dict_find Qeq_bool k c = Some n -> exists k', In (k', n) c.
Proof.
  induction c as [|[k0 v0] c IH]; simpl; [discriminate|].
  destruct (Qeq_bool k k0).
  - intros [= <-]. exists k0. now left.
  - intros H. destruct (IH H) as [k' Hk']. exists k'. now right.
Qed.

Lemma occurrences_app (k e : Q) (data : list Q) :
  occurrences k (data ++ [e])
  = (occurrences k data + if Qeq_bool k e then 1 else 0)%nat.
Proof.
  unfold occurrences. rewrite filter_app, length_app. simpl.
  destruct (Qeq_bool k e); reflexivity.
Qed.

Lemma occurrences_compat (a b : Q) (data : list Q) :
  Qeq_bool a b = true -> occurrences a data = occurrences b data.
Proof.
  intros Hab. unfold occurrences. f_equal.
  apply filter_ext. intros x.
  rewrite (Qeq_bool_sym a x), (Qeq_bool_sym b x).
  apply Qeq_bool_trans_eq. exact Hab.
Qed.

Lemma Counter_counts (data : list Q) :
  (forall k, dict_get Qeq_bool k O (Counter data) = occurrences k data) /\
  (forall k n, In (k, n) (Counter data) -> (n <= occurrences k data)%nat).
Proof.
  unfold Counter.
  set (step := fun c elem =>
                 setitem Qeq_bool c elem (dict_get Qeq_bool elem O c + 1)%nat).
  assert (forall rest seen c,
             (forall k, dict_get Qeq_bool k O c = occurrences k seen) ->
             (forall k n, In (k, n) c -> (n <= occurrences k seen)%nat) ->
             (forall k, dict_get Qeq_bool k O (fold_left step rest c)
                        = occurrences k (seen ++ rest)) /\
             (forall k n, In (k, n) (fold_left step rest c) ->
                          (n <= occurrences k (seen ++ rest))%nat)) as H.
  { induction rest as [|e rest IH]; intros seen c Hget Hle.
    - rewrite app_nil_r. split; assumption.
    - simpl fold_left.
      replace (seen ++ e :: rest) with ((seen ++ [e]) ++ rest)
        by (rewrite <- app_assoc; reflexivity).
      apply IH.
      + intros k. unfold step, dict_get. rewrite dict_find_setitem_Q.
        rewrite occurrences_app.
        destruct (Qeq_bool k e) eqn:E.
        * fold (dict_get Qeq_bool e O c). rewrite Hget.
          rewrite (occurrences_compat k e seen E). reflexivity.
        * fold (dict_get Qeq_bool k O c). rewrite Hget. lia.
      + intros k n Hin. unfold step in Hin.
        rewrite occurrences_app.
        destruct (In_setitem_Q _ _ _ _ _ Hin) as [Hold|[-> Hnew]].
        * specialize (Hle k n Hold). lia.
        * rewrite Hget. rewrite (Qeq_bool_sym e k) in Hnew.
          rewrite Hnew, (occurrences_compat k e seen Hnew). lia. }
  apply (H data [] []).
  - intros k. reflexivity.
  - intros k n [].
Qed.

Lemma most_common_1_max (c : dict Q nat) (top : Q * nat) (rest : list (Q * nat)) :
  most_common_1 c = top :: rest ->
  forall kv, In kv c -> (snd kv <= snd top)%nat.
Proof.
  destruct c as [|kv0 c]; [discriminate|].
  unfold most_common_1. intros [= <- _].
  assert (forall best kv,
             In kv (best :: c) ->
             (snd kv <= snd (fold_left
                               (fun best kv' =>
                                  if Nat.ltb (snd best) (snd kv') then kv' else best)
                               c best))%nat) as H.
  { induction c as [|kv' c IH]; intros best kv Hin.
    - destruct Hin as [<-|[]]. simpl. lia.
    - simpl fold_left.
      destruct (Nat.ltb_spec (snd best) (snd kv')) as [Hlt|Hge].
      + destruct Hin as [<-|[<-|Hin]].
        * specialize (IH kv' kv' (or_introl eq_refl)). lia.
        * apply IH. now left.
        * apply IH. now right.
      + destruct Hin as [<-|[<-|Hin]].
        * apply IH. now left.
        * specialize (IH best best (or_introl eq_refl)). lia.
        * apply IH. now right. }
  apply H.
Qed.

Lemma statistics_mode_most_frequent (data : list Q) (m : Q) :
  statistics_mode data = Val m ->
  forall v, (occurrences v data <= occurrences m data)%nat.
Proof.
  unfold statistics_mode.
  destruct (most_common_1 (Counter data)) as [|[k cnt] rest] eqn:E; [discriminate|].
  intros [= <-] v. cbn [fst].
  destruct (Counter_counts data) as [Hget Hle].
  pose proof (most_common_1_In _ _ _ E) as Hin.
  pose proof (most_common_1_max _ _ _ E) as Hmax.
  specialize (Hle k cnt Hin).
  rewrite <- (Hget v). unfold dict_get.
  destruct (dict_find Qeq_bool v (Counter data)) as [n|] eqn:Ef; [|lia].
  destruct (dict_find_In_Q _ _ _ Ef) as [k' Hk'].
  specialize (Hmax (k', n) Hk'). cbn [snd] in Hmax. lia.
Qed.

(** X17. The mode both reports give for a group that is not empty is a
    most frequent rounded value: no rounded value occurs in the group more
    often than the reported one.  The sentinel "No unique mode" is never
    produced, also when several values are equally frequent. *)
Theorem reported_mode_is_most_frequent (group : list Person) :
  let values := map (fun q => round2 (value q)) group in
  match generate_report group with
  | Val NoData => group = []
  | Val (ReportDict r) =>
      exists m,
        r_mode r = ModeValue m /\
        In m values /\
        forall v, (occurrences v values <= occurrences m values)%nat
  | Err _ => False
  end.
Proof.
  destruct group as [|p ps]; [reflexivity|].
  intros values.
  assert (values <> []) as Hne by discriminate.
  destruct (mode_never_sentinel values Hne) as (m & Hm & Hmode).
  pose proof (statistics_mode_In values m Hm) as Hin.
  assert (round2 m = m) as Hround.
  { unfold values in Hin. apply in_map_iff in Hin.
    destruct Hin as (q & <- & _). apply round2_idempotent. }
  destruct (report_shape p ps EmptyString)
    as (mean & median & mn & mx & m' & Hgen & _).
  rewrite Hgen. cbn [r_mode].
  assert (m' = m) as ->.
  { pose proof Hgen as Hgen'. unfold generate_report in Hgen'. fold values in Hgen'.
    rewrite Hmode, Hround in Hgen'.
    destruct (statistics_median values) as [md|]; [|discriminate Hgen'].
    unfold values in Hgen' at 1. cbn in Hgen'.
    injection Hgen' as _ _ _ _ Hmm. congruence. }
  exists m. split; [reflexivity|]. split; [exact Hin|].
  exact (statistics_mode_most_frequent values m Hm).
Qed.

Lemma keys_setitem_cases (c : dict Q nat) (e : Q) (v : nat) :
  keys (setitem Qeq_bool c e v) = add_first (keys c) e.
Proof.
  unfold add_first, keys.
  induction c as [|[k0 v0] c IH]; simpl; [reflexivity|].
  destruct (Qeq_bool e k0); simpl; [reflexivity|].
  rewrite IH. destruct (existsb (Qeq_bool e) (map fst c)); reflexivity.
Qed.

Lemma Counter_keys_are_firsts (data : list Q) : keys (Counter data) = firsts data.
Proof.
  unfold Counter, firsts.
  assert (forall c,
             keys (fold_left
                     (fun c elem =>
                        setitem Qeq_bool c elem (dict_get Qeq_bool elem O c + 1)%nat)
                     data c)
             = fold_left add_first data (keys c)) as H.
  { induction data as [|e data IH]; intros c; simpl; [reflexivity|].
    rewrite IH, keys_setitem_cases. reflexivity. }
  apply H.
Qed.

Lemma firsts_snoc (data : list Q) (e : Q) :
  firsts (data ++ [e]) = add_first (firsts data) e.
Proof. unfold firsts. rewrite fold_left_app. reflexivity. Qed.

Lemma firsts_cover (data : list Q) (v : Q) :
  In v data -> existsb (Qeq_bool v) (firsts data) = true.
Proof.
  induction data as [|e data IH] using rev_ind; [intros []|].
  rewrite firsts_snoc. unfold add_first. intros Hin.
  apply in_app_or in Hin. destruct Hin as [Hin|[<-|[]]].
  - specialize (IH Hin).
    destruct (existsb (Qeq_bool e) (firsts data)); [exact IH|].
    rewrite existsb_app, IH. reflexivity.
  - destruct (existsb (Qeq_bool e) (firsts data)) eqn:E; [exact E|].
    rewrite existsb_app. simpl.
    assert (Qeq_bool e e = true) as -> by (apply Qeq_bool_iff; reflexivity).
    rewrite orb_true_r. reflexivity.
Qed.

Lemma firsts_split (data f1 f2 : list Q) (m : Q) :
  firsts data = f1 ++ m :: f2 ->
  exists l1 l2,
    data = l1 ++ m :: l2 /\
    forall v, In v l1 -> existsb (Qeq_bool v) f1 = true.
Proof.
  revert f2. induction data as [|e data IH] using rev_ind; intros f2 Hf.
  - destruct f1; discriminate.
  - rewrite firsts_snoc in Hf. unfold add_first in Hf.
    destruct (existsb (Qeq_bool e) (firsts data)) eqn:E.
    + destruct (IH f2 Hf) as (l1 & l2 & -> & Hcov).
      exists l1, (l2 ++ [e]). split; [|exact Hcov].
      rewrite <- app_assoc. reflexivity.
    + destruct f2 as [|x f2] using rev_ind.
      * apply app_inj_tail in Hf. destruct Hf as [Hf ->].
        exists data, []. split; [reflexivity|].
        intros v Hv. rewrite <- Hf. apply firsts_cover. exact Hv.
      * clear IHf2.
        replace (f1 ++ m :: f2 ++ [x]) with ((f1 ++ m :: f2) ++ [x]) in Hf
          by (rewrite <- app_assoc; reflexivity).
        apply app_inj_tail in Hf. destruct Hf as [Hf ->].
        destruct (IH f2 Hf) as (l1 & l2 & -> & Hcov).
        exists l1, (l2 ++ [x]). split; [|exact Hcov].
        rewrite <- app_assoc. reflexivity.
Qed.

Lemma most_common_1_first (c : dict Q nat) (top : Q * nat) (rest : list (Q * nat)) :
  most_common_1 c = top :: rest ->
  exists c1 c2,
    c = c1 ++ top :: c2 /\
    forall kv, In kv c1 -> (snd kv < snd top)%nat.
Proof.
  destruct c as [|kv0 c]; [discriminate|].
  unfold most_common_1. intros [= <- _].
  assert (forall a best b,
             (forall kv, In kv a -> (snd kv < snd best)%nat) ->
             (forall kv, In kv b -> (snd kv <= snd best)%nat) ->
             exists c1 c2,
               a ++ best :: b ++ c
               = c1 ++ fold_left
                         (fun best kv' =>
                            if Nat.ltb (snd best) (snd kv') then kv' else best)
                         c best :: c2 /\
               forall kv, In kv c1 ->
                 (snd kv < snd (fold_left
                                  (fun best kv' =>
                                     if Nat.ltb (snd best) (snd kv') then kv' else best)
                                  c best))%nat) as H.
  { induction c as [|kv' c IH]; intros a best b Ha Hb.
    - exists a, b. rewrite app_nil_r. split; [reflexivity | exact Ha].
    - simpl fold_left.
      destruct (Nat.ltb_spec (snd best) (snd kv')) as [Hlt|Hge].
      + destruct (IH (a ++ best :: b) kv' []) as (c1 & c2 & Heq & Hc1).
        * intros kv Hin. apply in_app_or in Hin.
          destruct Hin as [Hin|[<-|Hin]].
          -- specialize (Ha kv Hin). lia.
          -- exact Hlt.
          -- specialize (Hb kv Hin). lia.
        * intros kv [].
        * exists c1, c2. split; [|exact Hc1].
          rewrite <- Heq. rewrite <- !app_assoc. reflexivity.
      + destruct (IH a best (b ++ [kv'])) as (c1 & c2 & Heq & Hc1).
        * exact Ha.
        * intros kv Hin. apply in_app_or in Hin.
          destruct Hin as [Hin|[<-|[]]]; [auto | exact Hge].
        * exists c1, c2. split; [|exact Hc1].
          rewrite <- Heq. rewrite <- !app_assoc. reflexivity. }
  destruct (H [] kv0 []) as (c1 & c2 & Heq & Hc1).
  - intros kv [].
  - intros kv [].
  - exists c1, c2. split; [exact Heq | exact Hc1].
Qed.

Lemma dict_find_prefix (c1 r : dict Q nat) (v : Q) :
  existsb (Qeq_bool v) (keys c1) = true ->
  exists k n, In (k, n) c1 /\ dict_find Qeq_bool v (c1 ++ r) = Some n.
Proof.
  induction c1 as [|[k0 n0] c1 IH]; simpl; [discriminate|].
  destruct (Qeq_bool v k0).
  - intros _. exists k0, n0. split; [now left | reflexivity].
  - simpl. intros H. destruct (IH H) as (k & n & Hin & Hf).
    exists k, n. split; [now right | exact Hf].
Qed.

Lemma statistics_mode_is_first (data : list Q) (m : Q) :
  statistics_mode data = Val m ->
  exists l1 l2,
    data = l1 ++ m :: l2 /\
    forall v, In v l1 -> (occurrences v data < occurrences m data)%nat.
Proof.
  unfold statistics_mode.
  destruct (most_common_1 (Counter data)) as [|[k cnt] rest] eqn:E; [discriminate|].
  intros [= <-]. cbn [fst].
  destruct (Counter_counts data) as [Hget Hle].
  pose proof (most_common_1_In _ _ _ E) as Hin.
  destruct (most_common_1_first _ _ _ E) as (c1 & c2 & Hc & Hc1).
  specialize (Hle k cnt Hin).
  pose proof (Counter_keys_are_firsts data) as Hk.
  rewrite Hc in Hk. unfold keys in Hk. rewrite map_app in Hk. cbn [map fst] in Hk.
  symmetry in Hk.
  destruct (firsts_split data _ _ _ Hk) as (l1 & l2 & Hdata & Hcov).
  exists l1, l2. split; [exact Hdata|].
  intros v Hv. specialize (Hcov v Hv).
  destruct (dict_find_prefix c1 ((k, cnt) :: c2) v Hcov) as (k' & n & Hin' & Hf).
  rewrite <- Hc in Hf.
  specialize (Hc1 (k', n) Hin'). cbn [snd] in Hc1.
  rewrite <- (Hget v). unfold dict_get. rewrite Hf. lia.
Qed.

(** X18. Among equally frequent values the reports give the one that comes
    first in the group: every rounded value standing before the first
    occurrence of the reported mode occurs strictly less often than the
    mode. *)
Theorem reported_mode_is_first_among_ties (group : list Person) :
  let values := map (fun q => round2 (value q)) group in
  match generate_report group with
  | Val NoData => group = []
  | Val (ReportDict r) =>
      exists m before after,
        r_mode r = ModeValue m /\
        values = before ++ m :: after /\
        forall v, In v before ->
                  (occurrences v values < occurrences m values)%nat
  | Err _ => False
  end.
Proof.
  destruct group as [|p ps]; [reflexivity|].
  intros values.
  assert (values <> []) as Hne by discriminate.
  destruct (mode_never_sentinel values Hne) as (m & Hm & Hmode).
  pose proof (statistics_mode_In values m Hm) as Hin.
  assert (round2 m = m) as Hround.
  { unfold values in Hin. apply in_map_iff in Hin.
    destruct Hin as (q & <- & _). apply round2_idempotent. }
  destruct (report_shape p ps EmptyString)
    as (mean & median & mn & mx & m' & Hgen & _).
  rewrite Hgen. cbn [r_mode].
  assert (m' = m) as ->.
  { pose proof Hgen as Hgen'. unfold generate_report in Hgen'. fold values in Hgen'.
    rewrite Hmode, Hround in Hgen'.
    destruct (statistics_median values) as [md|]; [|discriminate Hgen'].
    unfold values in Hgen' at 1. cbn in Hgen'.
    injection Hgen' as _ _ _ _ Hmm. congruence. }
  destruct (statistics_mode_is_first values m Hm) as (l1 & l2 & Hsplit & Hless).
  exists m, l1, l2. split; [reflexivity|]. split; assumption.
Qed.
